(** * Patch cropping and line-segment rendering of [image.py]

    A shallow embedding of the [Image] class of the tractography
    repository: [Image.crop] and [Image.draw_line_segment].

    Conventions of the embedding.
    - Python integers are [Z].  Tensor elements and Python floats are
      [scalar]: an exact rational, or one of the three IEEE special values
      (rounding error and the sign of zero are not represented).
    - A tensor is its shape together with its element function; two
      tensors are compared through [shape] and [elem] at in-range indices.
    - An exception is a value of [exn]; a method of [Image] is a function
      from the object's state to an outcome and the state it leaves.
    - The library routines whose numeric results cannot be reproduced with
      rationals (square root, Gaussian filter, conversion of a non-finite
      float to an integer) are fields of the class [Numerics], and so are
      the two limits of the machine the program meets: the number of
      elements a new tensor can hold, and what NumPy's 64-bit arithmetic
      delivers once a value has left the range where it is exact.
    - The docstrings' shapes are assumed: [data] has one channel axis
      followed by [n_dim] spatial axes, a point has [n_dim] coordinates. *)

From Stdlib Require Import ZArith QArith Qround List Bool Lia.
From Stdlib Require Import Lqa.
Import ListNotations.
Open Scope Z_scope.

(** ** Scalars *)

Inductive scalar : Type :=
| Fin (q : Q)
| PInf
| NInf
| NaN.

Definition Qpos_b (q : Q) : bool := 0 <? Qnum q.
Definition Qneg_b (q : Q) : bool := Qnum q <? 0.
Definition Qzero_b (q : Q) : bool := Qnum q =? 0.
Definition Qlt_b (a b : Q) : bool := negb (Qle_bool b a).

Definition fneg (a : scalar) : scalar :=
  match a with
  | Fin q => Fin (- q)
  | PInf => NInf
  | NInf => PInf
  | NaN => NaN
  end.

Definition fadd (a b : scalar) : scalar :=
  match a, b with
  | NaN, _ | _, NaN => NaN
  | Fin x, Fin y => Fin (x + y)
  | PInf, NInf | NInf, PInf => NaN
  | PInf, _ | _, PInf => PInf
  | NInf, _ | _, NInf => NInf
  end.

Definition fsub (a b : scalar) : scalar := fadd a (fneg b).

(** The infinity whose sign is the sign of [q]; [q] is not zero. *)
Definition inf_of_sign (q : Q) : scalar := if Qpos_b q then PInf else NInf.

Definition fmul (a b : scalar) : scalar :=
  match a, b with
  | NaN, _ | _, NaN => NaN
  | Fin x, Fin y => Fin (x * y)
  | Fin x, PInf | PInf, Fin x => if Qzero_b x then NaN else inf_of_sign x
  | Fin x, NInf | NInf, Fin x => if Qzero_b x then NaN else inf_of_sign (- x)
  | PInf, PInf | NInf, NInf => PInf
  | PInf, NInf | NInf, PInf => NInf
  end.

Definition fdiv (a b : scalar) : scalar :=
  match a, b with
  | NaN, _ | _, NaN => NaN
  | Fin x, Fin y =>
      if Qzero_b y then (if Qzero_b x then NaN else inf_of_sign x)
      else Fin (x / y)
  | Fin _, _ => Fin 0
  | PInf, Fin y => if Qneg_b y then NInf else PInf
  | NInf, Fin y => if Qneg_b y then PInf else NInf
  | _, _ => NaN
  end.

(** [a < b] and [a > b] of IEEE comparison: false when either is NaN. *)
Definition flt (a b : scalar) : bool :=
  match a, b with
  | NaN, _ | _, NaN => false
  | Fin x, Fin y => Qlt_b x y
  | _, NInf | PInf, _ => false
  | NInf, _ | Fin _, PInf => true
  end.

Definition fgt (a b : scalar) : bool := flt b a.

(** [torch.maximum]: a NaN operand is returned, otherwise the larger. *)
Definition fmax (a b : scalar) : scalar :=
  match a, b with
  | NaN, _ | _, NaN => NaN
  | _, _ => if flt b a then a else b
  end.

Definition fceil (a : scalar) : scalar :=
  match a with Fin q => Fin (inject_Z (Qceiling q)) | _ => a end.

(** Rounding to the nearest integer, ties to the even one ([torch.round],
    [numpy.round]). *)
Definition round_half_even (q : Q) : Z :=
  let f := Qfloor q in
  let r := (q - inject_Z f)%Q in
  if Qlt_b r (1 # 2) then f
  else if Qlt_b (1 # 2) r then f + 1
  else if Z.even f then f else f + 1.

Definition fround (a : scalar) : scalar :=
  match a with Fin q => Fin (inject_Z (round_half_even q)) | _ => a end.

(** Truncation toward zero. *)
Definition Qtrunc (q : Q) : Z := Z.quot (Qnum q) (Zpos (Qden q)).

(** ** Exceptions and outcomes *)

Inductive exn : Type :=
| IndexError
| ValueError
| RuntimeError
| OverflowError
| UnboundLocalError
| TypeError.

Inductive result (A : Type) : Type :=
| Ok (a : A)
| Raise (e : exn).
Arguments Ok {A} a.
Arguments Raise {A} e.

Definition rbind {A B} (r : result A) (f : A -> result B) : result B :=
  match r with Ok a => f a | Raise e => Raise e end.

Fixpoint rmap {A B} (f : A -> result B) (l : list A) : result (list B) :=
  match l with
  | [] => Ok []
  | x :: l' => rbind (f x) (fun y => rbind (rmap f l') (fun ys => Ok (y :: ys)))
  end.

(** Python's [int(x)] on a float: truncation; NaN and the infinities raise. *)
Definition py_int (a : scalar) : result Z :=
  match a with
  | Fin q => Ok (Qtrunc q)
  | NaN => Raise ValueError
  | _ => Raise OverflowError
  end.

(** ** Tensors *)

Record tensor : Type := mkTensor { shape : list Z; elem : list Z -> scalar }.

Definition full (s : list Z) (v : scalar) : tensor := mkTensor s (fun _ => v).

Fixpoint zipWith {A B C} (f : A -> B -> C) (l1 : list A) (l2 : list B) : list C :=
  match l1, l2 with
  | a :: l1', b :: l2' => f a b :: zipWith f l1' l2'
  | _, _ => []
  end.

Fixpoint forallb2 {A B} (f : A -> B -> bool) (l1 : list A) (l2 : list B) : bool :=
  match l1, l2 with
  | [], [] => true
  | a :: l1', b :: l2' => f a b && forallb2 f l1' l2'
  | _, _ => false
  end.

Definition range (n : Z) : list Z := map Z.of_nat (seq 0 (Z.to_nat n)).

(** Every index of a tensor of shape [s], in row-major order. *)
Fixpoint indices (s : list Z) : list (list Z) :=
  match s with
  | [] => [[]]
  | n :: s' => flat_map (fun i => map (cons i) (indices s')) (range n)
  end.

Definition in_bounds (s idx : list Z) : bool :=
  forallb2 (fun n i => (0 <=? i) && (i <? n)) s idx.

(** A negative index counts from the end; out of range raises. *)
Definition norm_index (n i : Z) : result Z :=
  if (- n <=? i) && (i <? n) then Ok (if i <? 0 then i + n else i)
  else Raise IndexError.

(** [start:stop] on an axis of length [n], as Python's [slice.indices]:
    the first index taken and the number of indices taken. *)
Definition py_slice (n : Z) (s : Z * Z) : Z * Z :=
  let clamp x := let x' := if x <? 0 then x + n else x in Z.max 0 (Z.min n x') in
  let lo := clamp (fst s) in
  let hi := clamp (snd s) in
  (lo, Z.max 0 (hi - lo)).

(** [expandable src dst]: a tensor of shape [src] can be written into, or
    combined with, a tensor of shape [dst]: axis by axis the lengths agree
    or the source axis has length 1 and is repeated. *)
Definition expandable (src dst : list Z) : bool :=
  forallb2 (fun s d => (s =? d) || (s =? 1)) src dst.

Definition bcast_index (src idx : list Z) : list Z :=
  zipWith (fun n i => if n =? 1 then 0 else i) src idx.

(** The shape two operands broadcast to. *)
Fixpoint broadcast_shapes (a b : list Z) : result (list Z) :=
  match a, b with
  | [], [] => Ok []
  | x :: a', y :: b' =>
      rbind (broadcast_shapes a' b') (fun r =>
        if x =? y then Ok (x :: r)
        else if x =? 1 then Ok (y :: r)
        else if y =? 1 then Ok (x :: r)
        else Raise RuntimeError)
  | _, _ => Raise RuntimeError
  end.

Definition tmap (f : scalar -> scalar) (t : tensor) : tensor :=
  mkTensor (shape t) (fun idx => f (elem t idx)).

(** [torch.maximum a b]. *)
Definition maximum (a b : tensor) : result tensor :=
  rbind (broadcast_shapes (shape a) (shape b)) (fun r =>
    Ok (mkTensor r (fun idx =>
          fmax (elem a (bcast_index (shape a) idx))
               (elem b (bcast_index (shape b) idx))))).

(** [torch.amax] over every axis: the reduction of an empty tensor raises. *)
Definition amax (t : tensor) : result scalar :=
  match map (elem t) (indices (shape t)) with
  | [] => Raise IndexError
  | v :: vs => Ok (fold_left fmax vs v)
  end.

(** ** Library routines and machine limits kept abstract

    [sqrtQ q] is [torch.sqrt] at a finite [q >= 0]; [gaussian X sigma] is
    [skimage.filters.gaussian]; [int_of_nonfinite] is what [Tensor.to(int)]
    makes of NaN and of the infinities.

    [max_numel] is the largest number of elements of a tensor that
    [torch.ones] and [torch.zeros] can allocate on the machine: at least
    2^20, and less than 2^61, where the byte count of a float tensor leaves
    64 bits.  The element-wise operations on tensors that exist are taken
    to find the room they need.

    [numpy_overflow radius idx padding bounds] is what NumPy's arithmetic
    of lines 70-73 and 95-98 delivers as slice bounds, [bounds] being the
    exact integers, once a value has left the range where that arithmetic
    is exact.  It depends on the version of NumPy: a float array and a
    [TypeError] at the slicing, an [OverflowError], or the exact integers
    of an object array.  For a radius in [0, 2^62) and a padding vector
    without negative entry it delivers no other integers than the exact
    ones. *)
Class Numerics : Type := {
  sqrtQ : Q -> Q;
  gaussian : tensor -> list scalar -> result tensor;
  int_of_nonfinite : scalar -> Z;
  max_numel : Z;
  numpy_overflow :
    Z -> list Z -> list Z -> list (Z * Z) -> result (list (Z * Z));
  max_numel_range : 2 ^ 20 <= max_numel < 2 ^ 61;
  numpy_overflow_exact :
    forall radius idx padding bounds l,
      0 <= radius -> 2 * radius + 1 < 2 ^ 63 ->
      Forall (fun p => 0 <= p) padding ->
      numpy_overflow radius idx padding bounds = Ok l -> l = bounds
}.

(** The number of elements of a tensor of shape [s]. *)
Definition numel (s : list Z) : Z := fold_right Z.mul 1 s.

(** [torch.ones(s)], [torch.zeros(s)]: a negative length raises, and so
    does a length that does not fit a 64-bit integer or a number of
    elements the machine cannot hold. *)
Definition allocatable {num : Numerics} (s : list Z) : bool :=
  forallb (fun n => (0 <=? n) && (n <? 2 ^ 63)) s && (numel s <=? max_numel).

Definition alloc {num : Numerics} (s : list Z) (v : scalar) : result tensor :=
  if allocatable s then Ok (full s v) else Raise RuntimeError.

Definition getitem (l : list Z) (n : nat) : result Z :=
  match nth_error l n with Some x => Ok x | None => Raise IndexError end.

(** *** Slices of the axes that follow the first one

    A region lists, for the leading spatial axes, the first index taken and
    the number of indices taken. *)
Definition region := list (Z * Z).

Definition slice_region (dims : list Z) (slices : list (Z * Z)) : result region :=
  if (length slices <=? length dims)%nat then Ok (zipWith py_slice dims slices)
  else Raise IndexError.

Fixpoint region_shape (r : region) (dims : list Z) : list Z :=
  match r, dims with
  | s :: r', _ :: dims' => snd s :: region_shape r' dims'
  | _, _ => dims
  end.

Fixpoint shift (r : region) (idx : list Z) : list Z :=
  match r, idx with
  | s :: r', i :: idx' => (fst s + i) :: shift r' idx'
  | _, _ => idx
  end.

Fixpoint unshift (r : region) (idx : list Z) : list Z :=
  match r, idx with
  | s :: r', i :: idx' => (i - fst s) :: unshift r' idx'
  | _, _ => idx
  end.

Fixpoint inside (r : region) (idx : list Z) : bool :=
  match r, idx with
  | s :: r', i :: idx' =>
      (fst s <=? i) && (i <? fst s + snd s) && inside r' idx'
  | [], _ => true
  | _ :: _, [] => false
  end.

(** [t[:, r]] read as a tensor. *)
Definition sub_tensor (t : tensor) (r : region) : tensor :=
  mkTensor
    (match shape t with [] => [] | c :: dims => c :: region_shape r dims end)
    (fun idx => match idx with [] => elem t [] | c :: sp => elem t (c :: shift r sp) end).

(** [t[ch]]. *)
Definition select (t : tensor) (ch : Z) : result tensor :=
  match shape t with
  | [] => Raise IndexError
  | c :: dims =>
      rbind (norm_index c ch) (fun ch' =>
        Ok (mkTensor dims (fun idx => elem t (ch' :: idx))))
  end.

(** [dst[:, r] = src]. *)
Definition assign_region (dst : tensor) (r : region) (src : tensor) : result tensor :=
  if expandable (shape src) (shape (sub_tensor dst r)) then
    Ok (mkTensor (shape dst) (fun idx =>
          match idx with
          | c :: sp =>
              if inside r sp
              then elem src (bcast_index (shape src) (c :: unshift r sp))
              else elem dst idx
          | [] => elem dst idx
          end))
  else Raise RuntimeError.

(** [dst[:, r][ch] = src]. *)
Definition assign_channel (dst : tensor) (r : region) (ch : Z) (src : tensor)
  : result tensor :=
  rbind (select (sub_tensor dst r) ch) (fun target =>
  rbind (match shape dst with [] => Raise IndexError | c :: _ => norm_index c ch end)
    (fun ch' =>
      if expandable (shape src) (shape target) then
        Ok (mkTensor (shape dst) (fun idx =>
              match idx with
              | c :: sp =>
                  if (c =? ch') && inside r sp
                  then elem src (bcast_index (shape src) (unshift r sp))
                  else elem dst idx
              | [] => elem dst idx
              end))
      else Raise RuntimeError)).

(** The slices [lo : n - hi] of consecutive axes, [lo] and [hi] read from a
    padding vector two entries per axis. *)
Fixpoint trim_slices (dims padding : list Z) : list (Z * Z) :=
  match dims, padding with
  | n :: dims', lo :: hi :: padding' => (lo, n - hi) :: trim_slices dims' padding'
  | _, _ => []
  end.

(** ** The state of an [Image] and its methods *)

Record Image : Type := mkImage { data : tensor; dx : list scalar }.

Definition M (A : Type) : Type := Image -> result A * Image.

Definition ret {A} (a : A) : M A := fun s => (Ok a, s).
Definition raise {A} (e : exn) : M A := fun s => (Raise e, s).
Definition bind {A B} (m : M A) (f : A -> M B) : M B :=
  fun s => match m s with
           | (Ok a, s') => f a s'
           | (Raise e, s') => (Raise e, s')
           end.
Definition lift {A} (r : result A) : M A := fun s => (r, s).
Definition gets {A} (f : Image -> A) : M A := fun s => (Ok (f s), s).
Definition set_data (t : tensor) : M unit := fun s => (Ok tt, mkImage t (dx s)).

Declare Scope image_scope.
Delimit Scope image_scope with image.
Notation "x <- m ;; k" := (bind m (fun x => k))
  (at level 61, m at next level, right associativity) : image_scope.
Notation "' p <- m ;; k" := (bind m (fun x => let p := x in k))
  (at level 61, p pattern, m at next level, right associativity) : image_scope.
Open Scope image_scope.

(** What [crop] returns as the patch: with [pad=False] a view of
    [self.data], given by its region; with [pad=True] a new tensor. *)
Inductive patch : Type :=
| View (r : region)
| Owned (t : tensor).

(** Lines 55-73: the padding vector and the slices taken from [data]. *)
Definition crop_extent3 (i j k radius s0 s1 s2 : Z) : list Z * list (Z * Z) :=
  let zpad_btm := if i + radius >? s0 - 1 then i + radius - (s0 - 1) else 0 in
  let zpad_top := if i - radius <? 0 then radius - i else 0 in
  let ypad_back := if j + radius >? s1 - 1 then j + radius - (s1 - 1) else 0 in
  let ypad_front := if j - radius <? 0 then radius - j else 0 in
  let xpad_right := if k + radius >? s2 - 1 then k + radius - (s2 - 1) else 0 in
  let xpad_left := if k - radius <? 0 then radius - k else 0 in
  let padding := [zpad_top; zpad_btm; ypad_front; ypad_back; xpad_left; xpad_right] in
  let zrmd_top := radius - zpad_top in
  let zrmd_btm := radius - zpad_btm in
  let yrmd_front := radius - ypad_front in
  let yrmd_back := radius - ypad_back in
  let xrmd_left := radius - xpad_left in
  let xrmd_right := radius - xpad_right in
  (padding,
   [(i - zrmd_top, i + zrmd_btm + 1);
    (j - yrmd_front, j + yrmd_back + 1);
    (k - xrmd_left, k + xrmd_right + 1)]).

(** Lines 84-98. *)
Definition crop_extent2 (i j radius s0 s1 : Z) : list Z * list (Z * Z) :=
  let ypad_back := if i + radius >? s0 - 1 then i + radius - (s0 - 1) else 0 in
  let ypad_front := if i - radius <? 0 then radius - i else 0 in
  let xpad_right := if j + radius >? s1 - 1 then j + radius - (s1 - 1) else 0 in
  let xpad_left := if j - radius <? 0 then radius - j else 0 in
  let padding := [ypad_front; ypad_back; xpad_left; xpad_right] in
  let yrmd_front := radius - ypad_front in
  let yrmd_back := radius - ypad_back in
  let xrmd_left := radius - xpad_left in
  let xrmd_right := radius - xpad_right in
  (padding,
   [(i - yrmd_front, i + yrmd_back + 1);
    (j - xrmd_left, j + xrmd_right + 1)]).

(** Lines 70-73 and 95-98 run in NumPy: [padding] and [[radius]*6] are
    arrays of 64-bit integers, their difference gives the remainders, and
    the slice bounds are [i] minus or plus a remainder.  The result is the
    exact one in two cases.  [np_small]: the radius, the center indices, the
    padding entries and the bounds are all below 2^62 in absolute value,
    so that no array leaves the signed 64-bit type and no sum leaves its
    range.  [np_clipped]: the radius is in [0, 2^62), no padding entry
    exceeds [2 * radius + 1] and the bounds are those of a slice
    [0 <= start <= stop], which is the case of a window within
    [radius + 1] cells of the volume; the center indices then differ from
    indices of the volume, which is held in memory, by at most
    [radius + 1].  Everywhere else the outcome is [numpy_overflow]. *)
Definition int62 (z : Z) : bool := (- 2 ^ 62 <=? z) && (z <? 2 ^ 62).

Definition np_small (radius : Z) (idx padding : list Z)
  (bounds : list (Z * Z)) : bool :=
  forallb int62 (radius :: idx ++ padding)
  && forallb (fun b => int62 (fst b) && int62 (snd b)) bounds.

Definition np_clipped (radius : Z) (padding : list Z)
  (bounds : list (Z * Z)) : bool :=
  (0 <=? radius) && (2 * radius + 1 <? 2 ^ 63)
  && forallb (fun p => (0 <=? p) && (p <=? 2 * radius + 1)) padding
  && forallb (fun b => (0 <=? fst b) && (fst b <=? snd b)) bounds.

Definition numpy_bounds {num : Numerics} (radius : Z) (idx padding : list Z)
  (bounds : list (Z * Z)) : result (list (Z * Z)) :=
  if np_small radius idx padding bounds || np_clipped radius padding bounds
  then Ok bounds
  else numpy_overflow radius idx padding bounds.

(** Lines 75-79 and 100-104: the padded copy.  [dims] is the shape of the
    new tensor after its channel axis. *)
Definition padded_copy {num : Numerics} (d : tensor) (r : region) (dims padding : list Z)
  (value : scalar) : result tensor :=
  rbind (getitem (shape d) 0) (fun c =>
  rbind (alloc (c :: dims) (fmul (Fin 1) value)) (fun patch_ =>
  rbind (slice_region dims (trim_slices dims padding)) (fun target =>
    assign_region patch_ target (sub_tensor d r)))).

Definition crop {num : Numerics} (center : list scalar) (radius : Z)
  (pad : bool) (value : scalar) (n_dim : Z) : M (patch * list Z) :=
  if n_dim =? 3 then
    ijk <- lift (rmap py_int center) ;;
    match ijk with
    | [i; j; k] =>
        d <- gets data ;;
        s0 <- lift (getitem (tl (shape d)) 0) ;;
        s1 <- lift (getitem (tl (shape d)) 1) ;;
        s2 <- lift (getitem (tl (shape d)) 2) ;;
        let (padding, slices) := crop_extent3 i j k radius s0 s1 s2 in
        slices <- lift (numpy_bounds radius [i; j; k] padding slices) ;;
        r <- lift (slice_region (tl (shape d)) slices) ;;
        if pad then
          let patch_size := 2 * radius + 1 in
          patch_ <- lift (padded_copy d r [patch_size; patch_size; patch_size]
                            padding value) ;;
          ret (Owned patch_, padding)
        else ret (View r, padding)
    | _ => raise ValueError
    end
  else if n_dim =? 2 then
    ij <- lift (rmap py_int center) ;;
    match ij with
    | [i; j] =>
        d <- gets data ;;
        s0 <- lift (getitem (tl (shape d)) 0) ;;
        s1 <- lift (getitem (tl (shape d)) 1) ;;
        let (padding, slices) := crop_extent2 i j radius s0 s1 in
        slices <- lift (numpy_bounds radius [i; j] padding slices) ;;
        r <- lift (slice_region (tl (shape d)) slices) ;;
        if pad then
          let patch_size := 2 * radius + 1 in
          patch_ <- lift (padded_copy d r [patch_size; patch_size]
                            padding value) ;;
          ret (Owned patch_, padding)
        else ret (View r, padding)
    | _ => raise ValueError
    end
  else raise UnboundLocalError.

(** ** [draw_line_segment] *)

Section Rendering.
Context {num : Numerics}.

Definition fsqrt (a : scalar) : scalar :=
  match a with
  | Fin q => if Qneg_b q then NaN else Fin (sqrtQ q)
  | PInf => PInf
  | _ => NaN
  end.

Definition to_int (a : scalar) : Z :=
  match a with Fin q => Qtrunc q | _ => int_of_nonfinite a end.

(** [skimage.draw.line_nd(start, stop, endpoint=True)] at integer end
    points: [max |stop - start| + 1] evenly spaced points, rounded. *)
Definition line_nd (start stop : list Z) : list (list Z) :=
  let npoints :=
    fold_right Z.max 0 (zipWith (fun a b => Z.abs (b - a)) start stop) + 1 in
  map (fun t =>
         zipWith (fun a b =>
                    if npoints =? 1 then a
                    else round_half_even
                           (inject_Z a + inject_Z t *
                              (inject_Z (b - a) / inject_Z (npoints - 1)))%Q)
           start stop)
      (range npoints).

Definition list_eqb (a b : list Z) : bool := forallb2 Z.eqb a b.

Definition norm_point (s p : list Z) : result (list Z) :=
  if (length s =? length p)%nat
  then rmap (fun ni => norm_index (fst ni) (snd ni)) (combine s p)
  else Raise IndexError.

(** [t[pts] = v] for a tuple of index arrays, given as the list of the
    points it addresses. *)
Definition index_put (t : tensor) (pts : list (list Z)) (v : scalar)
  : result tensor :=
  rbind (rmap (norm_point (shape t)) pts) (fun pts' =>
    Ok (mkTensor (shape t)
          (fun idx => if existsb (list_eqb idx) pts' then v else elem t idx))).

(** [t[r]]: slices of the leading axes of a tensor without channel axis. *)
Definition slice_tensor (t : tensor) (r : region) : tensor :=
  mkTensor (region_shape r (shape t)) (fun idx => elem t (shift r idx)).

Definition vsum (l : list scalar) : scalar := fold_left fadd l (Fin 0).

(** Lines 121-138: crop center, patch radius and the two end points of the
    line inside the working buffer. *)
Definition segment_geometry (segment : list scalar * list scalar)
  (width : scalar) (n_dim : Z)
  : result (list scalar * Z * list Z * list Z) :=
  let center :=
    map (fun s => fdiv s (Fin 2)) (zipWith fadd (fst segment) (snd segment)) in
  let direction := zipWith fsub (fst segment) (snd segment) in
  let segment_length := fsqrt (vsum (map (fun d => fmul d d) direction)) in
  let direction := map (fun d => fdiv d segment_length) direction in
  rbind (py_int (fceil (fdiv segment_length (Fin 2)))) (fun L =>
  rbind (py_int (fmul (Fin 2) width)) (fun overhang =>
    let patch_radius := L + overhang in
    let c := repeat (Fin (inject_Z patch_radius)) (Z.to_nat n_dim) in
    let start :=
      map (fun v => to_int (fround v))
          (zipWith fadd (map (fmul segment_length) direction) c) in
    let end_ :=
      map (fun v => to_int (fround v))
          (zipWith fadd (map (fmul (fneg segment_length)) direction) c) in
    Ok (center, patch_radius, start, end_))).

(** Lines 133-142: the working buffer [X], the line drawn in it and the
    blur. *)
Definition working_buffer (segment : list scalar * list scalar)
  (width : scalar) (n_dim : Z) (dxs : list scalar)
  : result (list scalar * Z * tensor) :=
  rbind (segment_geometry segment width n_dim) (fun g =>
    let '(center, patch_radius, start, end_) := g in
    let patch_size := 2 * patch_radius + 1 in
    rbind (alloc (repeat patch_size (Z.to_nat n_dim)) (Fin 0)) (fun X =>
      let line := line_nd start end_ in
      rbind (index_put X line (Fin 1)) (fun X =>
        let sigma := map (fun d => fdiv (fmul d width) (Fin 2)) dxs in
        rbind (gaussian X sigma) (fun X =>
          Ok (center, patch_radius, X))))).

(** Lines 145-150: [X] trimmed by the padding vector and divided by its
    maximum. *)
Definition trimmed_mask (n_dim : Z) (X : tensor) (padding : list Z)
  : result tensor :=
  let p n := getitem padding n in
  let s n := getitem (shape X) n in
  let normalized new_patch :=
    rbind (amax new_patch) (fun a => Ok (tmap (fun v => fdiv v a) new_patch)) in
  if n_dim =? 2 then
    rbind (p 0%nat) (fun p0 => rbind (s 0%nat) (fun s0 => rbind (p 1%nat) (fun p1 =>
    rbind (p 2%nat) (fun p2 => rbind (s 1%nat) (fun s1 => rbind (p 3%nat) (fun p3 =>
    rbind (slice_region (shape X) [(p0, s0 - p1); (p2, s1 - p3)]) (fun r =>
      normalized (slice_tensor X r))))))))
  else if n_dim =? 3 then
    rbind (p 0%nat) (fun p0 => rbind (s 0%nat) (fun s0 => rbind (p 1%nat) (fun p1 =>
    rbind (p 2%nat) (fun p2 => rbind (s 1%nat) (fun s1 => rbind (p 3%nat) (fun p3 =>
    rbind (p 4%nat) (fun p4 => rbind (s 2%nat) (fun s2 => rbind (p 5%nat) (fun p5 =>
    rbind (slice_region (shape X)
             [(p0, s0 - p1); (p2, s1 - p3); (p4, s2 - p5)]) (fun r =>
      normalized (slice_tensor X r)))))))))))
  else Raise UnboundLocalError.

(** [patch[channel]] read, and [patch[channel] = v]: through a view the
    write lands in [self.data]. *)
Definition patch_get (p : patch) (channel : Z) : M tensor :=
  match p with
  | View r => d <- gets data ;; lift (select (sub_tensor d r) channel)
  | Owned t => lift (select t channel)
  end.

Definition patch_set (p : patch) (channel : Z) (v : tensor) : M patch :=
  match p with
  | View r =>
      d <- gets data ;;
      d' <- lift (assign_channel d r channel v) ;;
      _ <- set_data d' ;;
      ret (View r)
  | Owned t =>
      t' <- lift (assign_channel t [] channel v) ;;
      ret (Owned t')
  end.

Definition threshold : scalar := Fin (68 # 100).

Definition binarize (v : scalar) : scalar :=
  if fgt v threshold then Fin 1 else Fin 0.

(** Lines 153-158: the mask merged into the patch by maximum, then the
    optional threshold. *)
Definition composite (patch : patch) (new_patch : tensor) (binary : bool)
  (channel : Z) : M unit :=
  cur <- patch_get patch channel ;;
  m <- lift (maximum new_patch cur) ;;
  patch <- patch_set patch channel m ;;
  if binary then
    cur <- patch_get patch channel ;;
    _ <- patch_set patch channel (tmap binarize cur) ;;
    ret tt
  else ret tt.

Definition draw_line_segment (segment : list scalar * list scalar)
  (width : scalar) (binary : bool) (channel : Z) (n_dim : Z) : M unit :=
  dxs <- gets dx ;;
  ' (center, patch_radius, X) <- lift (working_buffer segment width n_dim dxs) ;;
  ' (patch, padding) <- crop center patch_radius false (Fin 0) n_dim ;;
  new_patch <- lift (trimmed_mask n_dim X padding) ;;
  composite patch new_patch binary channel.

(** The defaults of the optional arguments of [draw_line_segment]. *)
Definition default_binary : bool := false.
Definition default_channel : Z := -1.
Definition default_n_dim : Z := 3.

End Rendering.

(** ** A reference instance of [Numerics]

    Used where a statement is evaluated on a concrete input: a square root
    that is exact on squares of rationals, a separable three-tap blur with
    replicated border, the conversion of x86-64 builds, which turns NaN
    and the infinities into the least 64-bit integer, room for 2^32
    elements, and a NumPy whose inexact arithmetic ends in [TypeError]. *)

Definition sqrt_floor (q : Q) : Q :=
  Z.sqrt (Qnum q * Zpos (Qden q)) # Qden q.

Fixpoint update_nth (k : nat) (f : Z -> Z) (idx : list Z) : list Z :=
  match idx, k with
  | [], _ => []
  | i :: idx', O => f i :: idx'
  | i :: idx', S k' => i :: update_nth k' f idx'
  end.

Definition blur_axis (k : nat) (t : tensor) : tensor :=
  mkTensor (shape t) (fun idx =>
    let n := nth k (shape t) 0 in
    let at_ d :=
      elem t (update_nth k (fun i => Z.max 0 (Z.min (n - 1) (i + d))) idx) in
    fdiv (fadd (fadd (at_ (-1)) (fmul (Fin 2) (at_ 0))) (at_ 1)) (Fin 4)).

Definition binomial_blur (t : tensor) (sigma : list scalar) : result tensor :=
  Ok (fold_right blur_axis t (seq 0 (length (shape t)))).

Definition reference_numerics : Numerics :=
  {| sqrtQ := sqrt_floor;
     gaussian := binomial_blur;
     int_of_nonfinite := fun _ => - 2 ^ 63;
     max_numel := 2 ^ 32;
     numpy_overflow := fun _ _ _ _ => Raise TypeError;
     max_numel_range :=
       conj (proj1 (Z.leb_le (2 ^ 20) (2 ^ 32)) eq_refl)
            (proj1 (Z.ltb_lt (2 ^ 32) (2 ^ 61)) eq_refl);
     numpy_overflow_exact :=
       fun _ _ _ bounds l _ _ _ (H : Raise TypeError = Ok l) =>
         match H in _ = r
               return match r with Ok l' => l' = bounds | Raise _ => True end
         with eq_refl => I end |}.

(** A point with integer coordinates, and a volume holding one value. *)
Definition pt (l : list Z) : list scalar := map (fun z => Fin (inject_Z z)) l.

Definition uniform_image (s : list Z) (v : scalar) (spacing : list Z) : Image :=
  mkImage (full s v) (pt spacing).

(** ** Notions used in the statements *)

(** The inclusive index bounds [start, stop - 1] of every slice lie in
    [0, size - 1]. *)
Definition bounds_within (slices : list (Z * Z)) (dims : list Z) : Prop :=
  Forall2 (fun s n => 0 <= fst s <= n - 1 /\ 0 <= snd s - 1 <= n - 1)
    slices dims.

(** The window [i - radius, i + radius] meets [0, size - 1] on every axis. *)
Definition window_meets (radius : Z) (idx dims : list Z) : Prop :=
  Forall2 (fun i n => 1 <= n /\ - radius <= i <= n - 1 + radius) idx dims.

(** The window widened by one cell meets or touches the volume. *)
Definition window_near (radius : Z) (idx dims : list Z) : Prop :=
  Forall2 (fun i n => 0 <= n /\ - (radius + 1) <= i <= n + radius) idx dims.

(** A computation that never writes the state. *)
Definition readonly {A} (m : M A) : Prop := forall s, snd (m s) = s.

(** Every value a computation returns satisfies [P]. *)
Definition returns {A} (P : A -> Prop) (m : M A) : Prop :=
  forall s, match fst (m s) with Ok a => P a | Raise _ => True end.

(** The patch of a result of [crop] is a view of [self.data]. *)
Definition is_view (x : patch * list Z) : Prop :=
  match fst x with View _ => True | Owned _ => False end.

(** What [composite] leaves in [data] at the index [idx], for a mask
    [new_patch] merged through the view [r] into channel [ch]. *)
Definition blend (binary : bool) (m old : scalar) : scalar :=
  let v := fmax m old in if binary then binarize v else v.

Definition composited (new_patch : tensor) (r : region) (ch : Z)
  (binary : bool) (d : tensor) (idx : list Z) : scalar :=
  match idx with
  | c0 :: sp =>
      if (c0 =? ch) && inside r sp
      then blend binary
             (elem new_patch (bcast_index (shape new_patch) (unshift r sp)))
             (elem d idx)
      else elem d idx
  | [] => elem d idx
  end.

(** Everything [draw_line_segment] computes before it touches the values
    of [data]: the patch returned by [crop] and the normalized mask. *)
Definition draw_plan {num : Numerics} (segment : list scalar * list scalar)
  (width : scalar) (n_dim : Z) (img : Image) : result (patch * tensor) :=
  rbind (working_buffer segment width n_dim (dx img)) (fun b =>
    rbind (fst (crop (fst (fst b)) (snd (fst b)) false (Fin 0) n_dim img))
      (fun cp =>
         rbind (trimmed_mask n_dim (snd b) (snd cp)) (fun new_patch =>
           Ok (fst cp, new_patch)))).

(** Two images with the same spacing, the same shape and the same value
    at every index of that shape. *)
Definition same_image (a b : Image) : Prop :=
  dx a = dx b /\ shape (data a) = shape (data b) /\
  forall idx, in_bounds (shape (data a)) idx = true ->
              elem (data a) idx = elem (data b) idx.

(** A call of [draw_line_segment] and the buffer a sequence of calls leaves. *)
Record call : Type := mkCall {
  call_segment : list scalar * list scalar;
  call_width : scalar;
  call_binary : bool;
  call_channel : Z;
  call_n_dim : Z
}.

Definition run_call {num : Numerics} (c : call) (img : Image) : Image :=
  snd (draw_line_segment (call_segment c) (call_width c) (call_binary c)
         (call_channel c) (call_n_dim c) img).

Definition run_calls {num : Numerics} (cs : list call) (img : Image) : Image :=
  fold_left (fun s c => run_call c s) cs img.

(** A segment short enough, for its width, to be drawn. *)
Definition short_segment : list scalar * list scalar :=
  (pt [10; 10; 10], pt [10; 10; 12]).

(** The part of one axis of the working buffer, of edge [2 * radius + 1]
    around the index [i], that falls in a volume axis of length [n]: its
    first cell and its number of cells. *)
Definition window_part (i radius n : Z) : Z * Z :=
  (Z.max (radius - i) 0,
   Z.min (i + radius) (n - 1) - Z.max (i - radius) 0 + 1).

(** Two scalars with the same numeric value: the same rational number, the
    same infinity, or both NaN. *)
Definition feq (a b : scalar) : Prop :=
  match a, b with
  | Fin x, Fin y => (x == y)%Q
  | PInf, PInf | NInf, NInf | NaN, NaN => True
  | _, _ => False
  end.

(** Two images with the same spacing, the same shape and numerically the
    same value at every index of that shape. *)
Definition same_values (a b : Image) : Prop :=
  dx a = dx b /\ shape (data a) = shape (data b) /\
  forall idx, in_bounds (shape (data a)) idx = true ->
              feq (elem (data a) idx) (elem (data b) idx).

(** The working buffer of [short_segment] at width 1 with the reference
    instance: the line from (3,3,1) to (3,3,5) in a buffer of edge 7,
    blurred along its three axes; and the midpoint of that segment. *)
Definition short_buffer : tensor :=
  fold_right blur_axis
    (mkTensor [7; 7; 7]
       (fun idx =>
          if existsb (list_eqb idx) (line_nd [3; 3; 1] [3; 3; 5])
          then Fin 1 else Fin 0))
    (seq 0 3).

Definition midpoint (segment : list scalar * list scalar) : list scalar :=
  map (fun s => fdiv s (Fin 2)) (zipWith fadd (fst segment) (snd segment)).

(** A scalar that is a zero. *)
Definition is_zero (a : scalar) : bool :=
  match a with Fin q => Qzero_b q | _ => false end.

(** A scalar that is a finite number not below zero. *)
Definition is_nonneg (a : scalar) : bool :=
  match a with Fin q => negb (Qneg_b q) | _ => false end.

(** The largest value of [short_buffer]. *)
Definition short_peak : scalar :=
  Eval vm_compute in
    match amax short_buffer with Ok v => v | Raise _ => NaN end.

(** A segment in the plane, and its working buffer at width 1 with the
    reference instance. *)
Definition planar_segment : list scalar * list scalar :=
  (pt [10; 10], pt [10; 12]).

Definition planar_buffer : tensor :=
  fold_right blur_axis
    (mkTensor [7; 7]
       (fun idx =>
          if existsb (list_eqb idx) (line_nd [3; 1] [3; 5])
          then Fin 1 else Fin 0))
    (seq 0 2).

(** A scalar that is NaN. *)
Definition is_nan (a : scalar) : bool :=
  match a with NaN => true | _ => false end.

(** The mask the call [c] merges into [img] holds no NaN.  (It holds NaN
    when the part of the working buffer that falls in the volume has 0 as
    its largest value, or holds NaN itself.) *)
Definition mask_defined {num : Numerics} (c : call) (img : Image) : bool :=
  match draw_plan (call_segment c) (call_width c) (call_n_dim c) img with
  | Ok (_, new_patch) =>
      forallb (fun idx => negb (is_nan (elem new_patch idx)))
        (indices (shape new_patch))
  | Raise _ => true
  end.

(** A volume whose value at an index is the sum of the coordinates of the
    index. *)
Definition graded_image (s : list Z) (spacing : list Z) : Image :=
  mkImage (mkTensor s (fun idx => Fin (inject_Z (fold_right Z.add 0 idx))))
    (pt spacing).

(** * The helpers on small inputs *)

Example py_slice_negative_stop : py_slice 30 (0, -1) = (0, 29).
Proof. reflexivity. Qed.

Example py_slice_past_the_end : py_slice 30 (32, 30) = (30, 0).
Proof. reflexivity. Qed.

Example round_half_even_ties :
  map round_half_even [1 # 2; 3 # 2; 5 # 2; (-1) # 2; 7 # 4] = [0; 2; 2; 0; 2].
Proof. reflexivity. Qed.

Example Qtrunc_toward_zero : map Qtrunc [7 # 2; (-7) # 2; (-1) # 2] = [3; -3; 0].
Proof. reflexivity. Qed.

Example line_nd_diagonal :
  line_nd [0; 0] [3; 1] = [[0; 0]; [1; 0]; [2; 1]; [3; 1]].
Proof. reflexivity. Qed.

Example zero_by_zero : fdiv (Fin 0) (Fin 0) = NaN.
Proof. reflexivity. Qed.

Example maximum_with_nan : fmax (Fin 1) NaN = NaN /\ fmax NaN (Fin 1) = NaN.
Proof. split; reflexivity. Qed.

Example nan_is_below_threshold : binarize NaN = Fin 0.
Proof. reflexivity. Qed.

(** * Properties of [crop] *)

Lemma allocatable_spec {num : Numerics} (s : list Z) :
  allocatable s = true <->
  Forall (fun n => 0 <= n < 2 ^ 63) s /\ numel s <= max_numel.
Proof.
  unfold allocatable. rewrite andb_true_iff, forallb_forall, Forall_forall.
  rewrite Z.leb_le. split; intros [H1 H2]; (split; [|exact H2]);
    intros x Hx; specialize (H1 x Hx).
  - apply andb_prop in H1 as [A B].
    apply Z.leb_le in A. apply Z.ltb_lt in B. lia.
  - apply andb_true_intro.
    split; [apply Z.leb_le|apply Z.ltb_lt]; lia.
Qed.

Lemma alloc_ok {num : Numerics} (s : list Z) (v : scalar) :
  allocatable s = true -> alloc s v = Ok (full s v).
Proof. intros H. unfold alloc. now rewrite H. Qed.

(** A tensor of at most 2^20 elements can be allocated on every machine. *)
Lemma allocatable_small {num : Numerics} (s : list Z) :
  forallb (fun n => (0 <=? n) && (n <? 2 ^ 63)) s = true ->
  (numel s <=? 2 ^ 20) = true ->
  allocatable s = true.
Proof.
  intros H Hn. unfold allocatable. rewrite H. apply Z.leb_le in Hn.
  apply Z.leb_le. pose proof max_numel_range. lia.
Qed.

Lemma numpy_bounds_clipped {num : Numerics} (radius : Z) (idx padding : list Z)
  (bounds : list (Z * Z)) :
  np_clipped radius padding bounds = true ->
  numpy_bounds radius idx padding bounds = Ok bounds.
Proof. intros H. unfold numpy_bounds. now rewrite H, orb_true_r. Qed.

Lemma numpy_bounds_small {num : Numerics} (radius : Z) (idx padding : list Z)
  (bounds : list (Z * Z)) :
  np_small radius idx padding bounds = true ->
  numpy_bounds radius idx padding bounds = Ok bounds.
Proof. intros H. unfold numpy_bounds. now rewrite H. Qed.

(** One axis of a window within [radius + 1] cells of the volume: the two
    padding entries are at most [2 * radius + 1] and the bounds are those
    of a slice. *)
Lemma axis_clipped (i radius n : Z) :
  0 <= radius -> 0 <= n -> - (radius + 1) <= i <= n + radius ->
  let hi := if i + radius >? n - 1 then i + radius - (n - 1) else 0 in
  let lo := if i - radius <? 0 then radius - i else 0 in
  0 <= lo <= 2 * radius + 1 /\ 0 <= hi <= 2 * radius + 1 /\
  0 <= i - (radius - lo) <= i + (radius - hi) + 1.
Proof.
  intros Hr Hn Hi. cbv zeta.
  destruct (Z.gtb_spec (i + radius) (n - 1));
  destruct (Z.ltb_spec (i - radius) 0); lia.
Qed.

Ltac prove_bounds :=
  repeat (apply andb_true_intro; split); try reflexivity;
  (apply Z.leb_le || apply Z.ltb_lt); lia.

Lemma numpy_bounds_near3 {num : Numerics} (i j k radius s0 s1 s2 : Z) :
  0 <= radius -> 2 * radius + 1 < 2 ^ 63 ->
  window_near radius [i; j; k] [s0; s1; s2] ->
  numpy_bounds radius [i; j; k] (fst (crop_extent3 i j k radius s0 s1 s2))
    (snd (crop_extent3 i j k radius s0 s1 s2))
  = Ok (snd (crop_extent3 i j k radius s0 s1 s2)).
Proof.
  intros Hr Hb Hw. apply numpy_bounds_clipped.
  inversion Hw as [|? ? ? ? [Hs0 Hi] Hw1]; subst.
  inversion Hw1 as [|? ? ? ? [Hs1 Hj] Hw2]; subst.
  inversion Hw2 as [|? ? ? ? [Hs2 Hk] Hw3]; subst. clear Hw Hw1 Hw2 Hw3.
  pose proof (axis_clipped i radius s0 Hr Hs0 Hi) as A.
  pose proof (axis_clipped j radius s1 Hr Hs1 Hj) as B.
  pose proof (axis_clipped k radius s2 Hr Hs2 Hk) as C.
  cbv zeta in A, B, C.
  unfold np_clipped, crop_extent3. cbn [fst snd forallb]. prove_bounds.
Qed.

Lemma numpy_bounds_near2 {num : Numerics} (i j radius s0 s1 : Z) :
  0 <= radius -> 2 * radius + 1 < 2 ^ 63 ->
  window_near radius [i; j] [s0; s1] ->
  numpy_bounds radius [i; j] (fst (crop_extent2 i j radius s0 s1))
    (snd (crop_extent2 i j radius s0 s1))
  = Ok (snd (crop_extent2 i j radius s0 s1)).
Proof.
  intros Hr Hb Hw. apply numpy_bounds_clipped.
  inversion Hw as [|? ? ? ? [Hs0 Hi] Hw1]; subst.
  inversion Hw1 as [|? ? ? ? [Hs1 Hj] Hw2]; subst. clear Hw Hw1 Hw2.
  pose proof (axis_clipped i radius s0 Hr Hs0 Hi) as A.
  pose proof (axis_clipped j radius s1 Hr Hs1 Hj) as B.
  cbv zeta in A, B.
  unfold np_clipped, crop_extent2. cbn [fst snd forallb]. prove_bounds.
Qed.

(** On one axis the slice taken from [data] and the slice of the padded
    patch that receives it have the same length. *)
Lemma axis_lengths_agree (i radius n : Z) :
  0 <= radius -> 0 <= n -> - (radius + 1) <= i <= n + radius ->
  let hi := if i + radius >? n - 1 then i + radius - (n - 1) else 0 in
  let lo := if i - radius <? 0 then radius - i else 0 in
  snd (py_slice n (i - (radius - lo), i + (radius - hi) + 1)) =
  snd (py_slice (2 * radius + 1) (lo, 2 * radius + 1 - hi)).
Proof.
  intros Hr Hn Hi. unfold py_slice. cbn [fst snd].
  destruct (Z.gtb_spec (i + radius) (n - 1));
  destruct (Z.ltb_spec (i - radius) 0); cbv zeta;
  repeat match goal with
         | |- context [?a <? ?b] => destruct (Z.ltb_spec a b)
         end; lia.
Qed.

Lemma expandable_refl (s : list Z) : expandable s s = true.
Proof.
  unfold expandable. induction s as [|x s IH]; cbn; [reflexivity|].
  now rewrite Z.eqb_refl, IH.
Qed.

Ltac run_monad :=
  unfold bind, lift, gets, ret, raise, set_data; cbn [fst snd].

(** Unfolds [crop] with [pad=True] on an image of known shape, down to the
    test that the slice of [data] fits the slice of the new patch. *)
Ltac split_extent :=
  match goal with
  | |- context [crop_extent3 ?i ?j ?k ?r ?a ?b ?c] =>
      rewrite (surjective_pairing (crop_extent3 i j k r a b c))
  | |- context [crop_extent2 ?i ?j ?r ?a ?b] =>
      rewrite (surjective_pairing (crop_extent2 i j r a b))
  end; cbv iota.

Ltac open_padded_crop Hidx Hs Hnp Ha :=
  unfold crop; cbn [Z.eqb Pos.eqb]; run_monad; rewrite Hidx, Hs;
  cbn [tl getitem nth_error]; split_extent; rewrite Hnp;
  unfold crop_extent2, crop_extent3, slice_region;
  cbn [length Nat.leb zipWith fst snd]; unfold padded_copy; rewrite Hs;
  cbn [getitem nth_error rbind];
  rewrite (alloc_ok _ _ Ha);
  cbn [rbind trim_slices slice_region length Nat.leb zipWith];
  unfold assign_region; cbn [sub_tensor shape full]; rewrite Hs;
  cbn [region_shape].

(** The edge of a patch that can be allocated fits 64 bits. *)
Lemma allocatable_edge {num : Numerics} (c p : Z) (n : nat) (l : list Z) :
  allocatable (c :: p :: l) = true -> p < 2 ^ 63.
Proof.
  intros H. apply allocatable_spec in H as [H _].
  inversion H as [|? ? _ H1]; subst. inversion H1 as [|? ? Hp _]; subst. lia.
Qed.

(** C1, amended.  For every radius [>= 0] for which a tensor of the shape
    of the patch, [c] channels of edge [2 * radius + 1], can be allocated
    (every length fits 64 bits and the machine holds that many elements),
    and every center with finite coordinates whose truncated index [i]
    satisfies [- (radius + 1) <= i <= size + radius] on every spatial axis
    (every center inside the volume does), [crop] with [pad=True] raises
    nothing and returns a new patch whose edge is [2 * radius + 1] on every
    spatial axis.  [n_dim] is 2 or 3 and [data] has [n_dim] spatial axes. *)
Theorem crop_pad_returns_full_patch {num : Numerics}
  (n_dim : Z) (center : list scalar) (idx : list Z) (radius : Z)
  (value : scalar) (img : Image) (c : Z) (dims : list Z) :
  n_dim = 2 \/ n_dim = 3 ->
  shape (data img) = c :: dims ->
  Z.of_nat (length dims) = n_dim ->
  rmap py_int center = Ok idx ->
  0 <= radius ->
  allocatable (c :: repeat (2 * radius + 1) (Z.to_nat n_dim)) = true ->
  window_near radius idx dims ->
  exists t padding,
    crop center radius true value n_dim img = (Ok (Owned t, padding), img) /\
    shape t = c :: repeat (2 * radius + 1) (Z.to_nat n_dim).
Proof.
  intros Hn Hs Hlen Hidx Hr Ha Hw.
  destruct Hn as [-> | ->].
  - destruct dims as [|s0 [|s1 [|? ?]]]; cbn in Hlen; try lia.
    change (Z.to_nat 2) with 2%nat in *. cbn [repeat] in *.
    pose proof (allocatable_edge _ _ 0 _ Ha) as Hp.
    inversion Hw as [|i ? ? ? [Hs0 Hi] Hw1]; subst.
    inversion Hw1 as [|j ? ? ? [Hs1 Hj] Hw2]; subst.
    inversion Hw2; subst.
    pose proof (numpy_bounds_near2 _ _ _ _ _ Hr Hp Hw) as Hnp.
    pose proof (axis_lengths_agree i radius s0 Hr Hs0 Hi) as A0.
    pose proof (axis_lengths_agree j radius s1 Hr Hs1 Hj) as A1.
    cbv zeta in A0, A1. open_padded_crop Hidx Hs Hnp Ha.
    rewrite A0, A1, expandable_refl.
    eexists. eexists. split; reflexivity.
  - destruct dims as [|s0 [|s1 [|s2 [|? ?]]]]; cbn in Hlen; try lia.
    change (Z.to_nat 3) with 3%nat in *. cbn [repeat] in *.
    pose proof (allocatable_edge _ _ 0 _ Ha) as Hp.
    inversion Hw as [|i ? ? ? [Hs0 Hi] Hw1]; subst.
    inversion Hw1 as [|j ? ? ? [Hs1 Hj] Hw2]; subst.
    inversion Hw2 as [|k ? ? ? [Hs2 Hk] Hw3]; subst.
    inversion Hw3; subst.
    pose proof (numpy_bounds_near3 _ _ _ _ _ _ _ Hr Hp Hw) as Hnp.
    pose proof (axis_lengths_agree i radius s0 Hr Hs0 Hi) as A0.
    pose proof (axis_lengths_agree j radius s1 Hr Hs1 Hj) as A1.
    pose proof (axis_lengths_agree k radius s2 Hr Hs2 Hk) as A2.
    cbv zeta in A0, A1, A2. open_padded_crop Hidx Hs Hnp Ha.
    rewrite A0, A1, A2, expandable_refl.
    eexists. eexists. split; reflexivity.
Qed.

(** C1 as stated fails: on a 3 x 30 x 30 x 30 volume the center (-5, 0, 0)
    with radius 3 takes the slice [0:-1] of 29 rows from [data] and the
    slice [8:7] of no row from the padded patch; the assignment raises. *)
Lemma crop_pad_raises_outside :
  fst (crop (num := reference_numerics) (pt [-5; 0; 0]) 3 true (Fin 0) 3
         (uniform_image [3; 30; 30; 30] (Fin 0) [1; 1; 1]))
  = Raise RuntimeError.
Proof. vm_compute. reflexivity. Qed.

Lemma crop_pad_returns_full_patch_witness :
  exists t padding,
    crop (num := reference_numerics) [Fin (-4); Fin (59 # 2); Fin 33] 3 true
      (Fin 0) 3 (uniform_image [3; 30; 30; 30] (Fin 0) [1; 1; 1])
    = (Ok (Owned t, padding), uniform_image [3; 30; 30; 30] (Fin 0) [1; 1; 1])
    /\ shape t = 3 :: repeat (2 * 3 + 1) (Z.to_nat 3).
Proof.
  apply (crop_pad_returns_full_patch (num := reference_numerics) 3
           [Fin (-4); Fin (59 # 2); Fin 33] [-4; 29; 33] 3 (Fin 0)
           (uniform_image [3; 30; 30; 30] (Fin 0) [1; 1; 1]) 3 [30; 30; 30]).
  - right. reflexivity.
  - reflexivity.
  - reflexivity.
  - reflexivity.
  - lia.
  - vm_compute. reflexivity.
  - repeat constructor; lia.
Defined.

(** C8.  On a 3 x 30 x 30 x 30 volume, [crop] at center (0, 0, 0) with
    radius 3 and [pad=True] returns a patch of shape (3, 7, 7, 7) and the
    padding vector (3, 0, 3, 0, 3, 0): 3 at the low side of every axis and 0
    at the high side. *)
Theorem crop_corner_scenario {num : Numerics} (img : Image) (value : scalar) :
  shape (data img) = [3; 30; 30; 30] ->
  exists t,
    crop (pt [0; 0; 0]) 3 true value 3 img
    = (Ok (Owned t, [3; 0; 3; 0; 3; 0]), img) /\
    shape t = [3; 7; 7; 7].
Proof.
  intros Hs. unfold crop. cbn [Z.eqb Pos.eqb]. run_monad.
  change (rmap py_int (pt [0; 0; 0])) with (Ok [0; 0; 0]).
  cbv beta iota. rewrite Hs. cbn [tl getitem nth_error].
  change (crop_extent3 0 0 0 3 30 30 30)
    with ([3; 0; 3; 0; 3; 0], [(0, 4); (0, 4); (0, 4)]).
  cbv iota. rewrite numpy_bounds_small by reflexivity.
  unfold padded_copy, assign_region.
  rewrite Hs. cbn [getitem nth_error rbind].
  rewrite alloc_ok
    by (apply allocatable_small; reflexivity).
  unfold sub_tensor. rewrite Hs.
  cbn. eexists. split; reflexivity.
Qed.

Lemma crop_corner_scenario_witness :
  exists t,
    crop (num := reference_numerics) (pt [0; 0; 0]) 3 true (Fin 0) 3
      (uniform_image [3; 30; 30; 30] (Fin 1) [1; 1; 1])
    = (Ok (Owned t, [3; 0; 3; 0; 3; 0]),
       uniform_image [3; 30; 30; 30] (Fin 1) [1; 1; 1]) /\
    shape t = [3; 7; 7; 7].
Proof.
  apply (crop_corner_scenario (num := reference_numerics)
           (uniform_image [3; 30; 30; 30] (Fin 1) [1; 1; 1]) (Fin 0)).
  reflexivity.
Defined.

Ltac split_comparisons :=
  repeat match goal with
         | |- context [?a <? ?b] => destruct (Z.ltb_spec a b)
         | |- context [?a >? ?b] => destruct (Z.gtb_spec a b)
         end.

(** C4 as stated fails: on axes of length 30 the center index 35 with
    radius 3 gives the slice [32:30], whose low bound 32 is not in [0, 29]. *)
Lemma crop_bounds_leave_volume :
  rmap py_int (pt [35; 0; 0]) = Ok [35; 0; 0] /\
  ~ bounds_within (snd (crop_extent3 35 0 0 3 30 30 30)) [30; 30; 30].
Proof.
  split; [reflexivity|]. intros H. inversion H as [|? ? ? ? [Hlo _] _]; subst.
  cbn in Hlo. lia.
Qed.

(** C4, amended.  For every center and every radius [>= 0] the entries of
    the padding vector are [>= 0]; when the window [i - radius, i + radius]
    meets [0, size - 1] on every axis (every center inside the volume does),
    the low and high index bounds of the slice taken from [data] lie in
    [0, size - 1] on every axis.  Both branches, [n_dim = 3] and [n_dim = 2]. *)
Theorem crop_extent_bounds (i j k radius s0 s1 s2 : Z) :
  0 <= radius ->
  Forall (fun p => 0 <= p) (fst (crop_extent3 i j k radius s0 s1 s2)) /\
  Forall (fun p => 0 <= p) (fst (crop_extent2 i j radius s0 s1)) /\
  (window_meets radius [i; j; k] [s0; s1; s2] ->
   bounds_within (snd (crop_extent3 i j k radius s0 s1 s2)) [s0; s1; s2]) /\
  (window_meets radius [i; j] [s0; s1] ->
   bounds_within (snd (crop_extent2 i j radius s0 s1)) [s0; s1]).
Proof.
  intros Hr. unfold crop_extent3, crop_extent2, bounds_within. cbn [fst snd].
  repeat split.
  - repeat constructor; split_comparisons; lia.
  - repeat constructor; split_comparisons; lia.
  - intros W. inversion W as [|? ? ? ? [Na Ia] W1]; subst.
    inversion W1 as [|? ? ? ? [Nb Ib] W2]; subst.
    inversion W2 as [|? ? ? ? [Nc Ic] W3]; subst.
    repeat constructor; cbn [fst snd]; split_comparisons; lia.
  - intros W. inversion W as [|? ? ? ? [Na Ia] W1]; subst.
    inversion W1 as [|? ? ? ? [Nb Ib] W2]; subst.
    repeat constructor; cbn [fst snd]; split_comparisons; lia.
Qed.

Lemma crop_extent_bounds_witness :
  Forall (fun p => 0 <= p) (fst (crop_extent3 0 15 31 3 30 30 30)) /\
  Forall (fun p => 0 <= p) (fst (crop_extent2 0 31 3 30 30)) /\
  bounds_within (snd (crop_extent3 0 15 31 3 30 30 30)) [30; 30; 30] /\
  bounds_within (snd (crop_extent2 0 31 3 30 30)) [30; 30].
Proof.
  destruct (crop_extent_bounds 0 15 31 3 30 30 30 ltac:(lia)) as (A & _ & C & _).
  destruct (crop_extent_bounds 0 31 0 3 30 30 0 ltac:(lia)) as (_ & B & _ & D).
  split; [exact A|]. split; [exact B|]. split.
  - apply C. repeat constructor; lia.
  - apply D. repeat constructor; lia.
Defined.

Lemma readonly_ret {A} (a : A) : readonly (ret a).
Proof. intros s. reflexivity. Qed.

Lemma readonly_raise {A} (e : exn) : readonly (@raise A e).
Proof. intros s. reflexivity. Qed.

Lemma readonly_lift {A} (r : result A) : readonly (lift r).
Proof. intros s. reflexivity. Qed.

Lemma readonly_gets {A} (f : Image -> A) : readonly (gets f).
Proof. intros s. reflexivity. Qed.

Lemma readonly_bind {A B} (m : M A) (f : A -> M B) :
  readonly m -> (forall a, readonly (f a)) -> readonly (bind m f).
Proof.
  intros Hm Hf s. unfold bind. specialize (Hm s).
  destruct (m s) as [[a|e] s']; cbn in Hm; subst.
  - apply Hf.
  - reflexivity.
Qed.

Ltac readonly_step :=
  match goal with
  | |- readonly (bind _ _) => apply readonly_bind; [|intros ?]
  | |- readonly (ret _) => apply readonly_ret
  | |- readonly (raise _) => apply readonly_raise
  | |- readonly (lift _) => apply readonly_lift
  | |- readonly (gets _) => apply readonly_gets
  | |- readonly (if ?b then _ else _) => destruct b
  | |- readonly (match ?l with [] => _ | _ :: _ => _ end) => destruct l
  | |- readonly (let (_, _) := ?p in _) => destruct p
  end.

Lemma crop_readonly {num : Numerics} center radius pad value n_dim :
  readonly (crop center radius pad value n_dim).
Proof. unfold crop. repeat readonly_step. Qed.

Lemma returns_bind {A B} (P : B -> Prop) (m : M A) (f : A -> M B) :
  (forall a, returns P (f a)) -> returns P (bind m f).
Proof.
  intros Hf s. unfold bind. destruct (m s) as [[a|e] s'].
  - apply Hf.
  - exact I.
Qed.

Lemma returns_ret {A} (P : A -> Prop) (a : A) : P a -> returns P (ret a).
Proof. intros H s. exact H. Qed.

Lemma returns_raise {A} (P : A -> Prop) (e : exn) : returns P (raise e).
Proof. intros s. exact I. Qed.

Ltac returns_step :=
  match goal with
  | |- returns _ (bind _ _) => apply returns_bind; intros ?
  | |- returns _ (ret _) => apply returns_ret; exact I
  | |- returns _ (raise _) => apply returns_raise
  | |- returns _ (if false then _ else _) => cbv iota
  | |- returns _ (if ?b then _ else _) => destruct b
  | |- returns _ (match ?l with [] => _ | _ :: _ => _ end) => destruct l
  | |- returns _ (let (_, _) := ?p in _) => destruct p
  end.

Lemma crop_unpadded_is_view {num : Numerics} center radius value n_dim :
  returns is_view (crop center radius false value n_dim).
Proof. unfold crop. repeat returns_step. Qed.

(** C9.  For every center, radius, pad flag, fill value and [n_dim], [crop]
    leaves the image as it found it, whether it returns or raises; with
    [pad=False] the patch it returns is never a new tensor: it is a view of
    [data]. *)
Theorem crop_leaves_data_unchanged {num : Numerics}
  (center : list scalar) (radius : Z) (pad : bool) (value : scalar)
  (n_dim : Z) (img : Image) :
  snd (crop center radius pad value n_dim img) = img /\
  match fst (crop center radius false value n_dim img) with
  | Ok (Owned _, _) => False
  | _ => True
  end.
Proof.
  split; [apply crop_readonly|].
  pose proof (crop_unpadded_is_view center radius value n_dim img) as H.
  destruct (fst (crop center radius false value n_dim img)) as [[[r|t] p]|e];
    auto.
Qed.

(** * Properties of [draw_line_segment] *)

Lemma broadcast_expandable (a : list Z) :
  forall b m, broadcast_shapes a b = Ok m -> expandable m b = true -> m = b.
Proof.
  induction a as [|x a IH]; intros [|y b] m Hb He; cbn in Hb; try discriminate.
  - congruence.
  - destruct (broadcast_shapes a b) as [r|e] eqn:Er; cbn in Hb; [|discriminate].
    unfold expandable in *.
    destruct (Z.eqb_spec x y) as [->|Hxy].
    + injection Hb as <-. cbn in He. apply andb_prop in He as [_ He].
      f_equal. now apply IH.
    + destruct (Z.eqb_spec x 1) as [->|Hx1].
      * injection Hb as <-. cbn in He. apply andb_prop in He as [_ He].
        f_equal. now apply IH.
      * destruct (Z.eqb_spec y 1) as [->|Hy1]; [|discriminate].
        injection Hb as <-. cbn in He. apply andb_prop in He as [He _].
        apply orb_prop in He as [He|He]; apply Z.eqb_eq in He; congruence.
Qed.

Lemma bcast_index_in_bounds (s : list Z) :
  forall idx, in_bounds s idx = true -> bcast_index s idx = idx.
Proof.
  unfold in_bounds, bcast_index.
  induction s as [|n s IH]; intros [|i idx] H; cbn in *; try discriminate.
  - reflexivity.
  - apply andb_prop in H as [Hi H]. apply andb_prop in Hi as [H0 H1].
    rewrite (IH idx H). f_equal.
    destruct (Z.eqb_spec n 1); [|reflexivity]. lia.
Qed.

Lemma in_bounds_unshift (r : region) :
  forall dims sp,
    inside r sp = true -> in_bounds dims sp = true ->
    in_bounds (region_shape r dims) (unshift r sp) = true.
Proof.
  unfold in_bounds.
  induction r as [|s r IH]; intros dims sp Hin Hb; cbn.
  - destruct sp; exact Hb.
  - destruct sp as [|i sp]; [discriminate|].
    destruct dims as [|n dims]; [discriminate|].
    cbn in *. apply andb_prop in Hin as [Hi Hin].
    apply andb_prop in Hi as [H0 H1]. apply andb_prop in Hb as [_ Hb].
    rewrite (IH dims sp Hin Hb), andb_true_r.
    apply andb_true_intro. split; lia.
Qed.

Lemma shift_unshift (r : region) : forall sp, shift r (unshift r sp) = sp.
Proof.
  induction r as [|s r IH]; intros [|i sp]; cbn; try reflexivity.
  rewrite IH. f_equal. lia.
Qed.

Lemma select_sub_tensor (d : tensor) (r : region) (ch c : Z) (dims : list Z) :
  shape d = c :: dims ->
  select (sub_tensor d r) ch =
  rbind (norm_index c ch) (fun ch' =>
    Ok (mkTensor (region_shape r dims) (fun idx => elem d (ch' :: shift r idx)))).
Proof. intros Hs. unfold select, sub_tensor. cbn [shape elem]. now rewrite Hs. Qed.

Lemma in_range (n i : Z) : 0 <= i < n -> In i (range n).
Proof.
  intros H. unfold range. apply in_map_iff. exists (Z.to_nat i).
  split; [lia|]. apply in_seq. lia.
Qed.

Lemma in_bounds_indices (s : list Z) :
  forall idx, in_bounds s idx = true -> In idx (indices s).
Proof.
  unfold in_bounds.
  induction s as [|n s IH]; intros [|i idx] H; cbn in H; try discriminate.
  - now left.
  - apply andb_prop in H as [Hi H]. apply andb_prop in Hi as [H0 H1].
    apply Z.leb_le in H0. apply Z.ltb_lt in H1.
    cbn [indices]. apply in_flat_map. exists i.
    split; [apply in_range; lia|]. apply in_map. now apply IH.
Qed.

Lemma bcast_in_bounds (src : list Z) :
  forall dst idx,
    expandable src dst = true -> in_bounds dst idx = true ->
    in_bounds src (bcast_index src idx) = true.
Proof.
  unfold expandable, in_bounds, bcast_index.
  induction src as [|n src IH]; intros [|m dst] [|i idx] He Hin;
    cbn in *; try discriminate; try reflexivity.
  apply andb_prop in He as [Hn He]. apply andb_prop in Hin as [Hi Hin].
  rewrite (IH dst idx He Hin), andb_true_r.
  apply andb_prop in Hi as [H0 H1].
  apply Z.leb_le in H0. apply Z.ltb_lt in H1.
  destruct (Z.eqb_spec n 1) as [->|Hn1]; [reflexivity|].
  rewrite orb_false_r in Hn. apply Z.eqb_eq in Hn. subst m.
  apply andb_true_intro. split; [apply Z.leb_le|apply Z.ltb_lt]; lia.
Qed.

Section Composite.
Context {num : Numerics}.

Lemma composite_view_spec (N : tensor) (r : region) (b : bool) (ch : Z)
  (img : Image) (res : result unit) (img' : Image) :
  composite (View r) N b ch img = (res, img') ->
  img' = img \/
  (res = Ok tt /\ dx img' = dx img /\
   shape (data img') = shape (data img) /\
   exists c dims ch',
     shape (data img) = c :: dims /\ norm_index c ch = Ok ch' /\
     forall idx, in_bounds (shape (data img)) idx = true ->
       elem (data img') idx = composited N r ch' b (data img) idx).
Proof.
  unfold composite, patch_get, patch_set. run_monad. intros H.
  destruct (shape (data img)) as [|c dims] eqn:Hs.
  { unfold select at 1, sub_tensor at 1 in H. cbn [shape] in H.
    rewrite Hs in H. injection H as <- <-. now left. }
  rewrite (select_sub_tensor _ r ch c dims Hs) in H.
  destruct (norm_index c ch) as [ch'|e] eqn:Hn; cbn [rbind] in H;
    [|injection H as <- <-; now left].
  unfold maximum in H. cbn [shape elem] in H.
  destruct (broadcast_shapes (shape N) (region_shape r dims)) as [sm|e] eqn:Hb;
    cbn [rbind] in H; [|injection H as <- <-; now left].
  unfold assign_channel at 1 in H.
  rewrite (select_sub_tensor _ r ch c dims Hs), Hs, Hn in H.
  cbn [rbind shape elem] in H.
  destruct (expandable sm (region_shape r dims)) eqn:He;
    [|injection H as <- <-; now left].
  assert (sm = region_shape r dims) as -> by (eapply broadcast_expandable; eauto).
  assert (Hpoint : forall c0 sp,
             in_bounds (c :: dims) (c0 :: sp) = true ->
             (c0 =? ch') && inside r sp = true ->
             bcast_index (region_shape r dims) (unshift r sp) = unshift r sp /\
             c0 = ch').
  { intros c0 sp Hin Hc. apply andb_prop in Hc as [Hc Hr].
    apply Z.eqb_eq in Hc. subst c0. split; [|reflexivity].
    apply bcast_index_in_bounds. apply in_bounds_unshift; [exact Hr|].
    unfold in_bounds in Hin. cbn in Hin. now apply andb_prop in Hin as [_ Hin]. }
  destruct b.
  - right. cbn [data dx] in H.
    match type of H with
    | context [select (sub_tensor ?d r) ch] => set (d1 := d) in H
    end.
    assert (Hs1 : shape d1 = c :: dims) by reflexivity.
    rewrite (select_sub_tensor d1 r ch c dims Hs1), Hn in H. cbn [rbind] in H.
    unfold assign_channel in H. cbn [tmap] in H.
    rewrite (select_sub_tensor d1 r ch c dims Hs1), Hs1, Hn in H.
    cbn [rbind shape elem] in H.
    rewrite expandable_refl in H. injection H as <- <-.
    subst d1. cbn [fst snd data dx shape elem].
    repeat split; try reflexivity; try assumption.
    exists c, dims, ch'. split; [reflexivity|]. split; [exact Hn|].
    intros [|c0 sp] Hin; [reflexivity|]. unfold composited, blend.
    destruct ((c0 =? ch') && inside r sp) eqn:Hc; [|reflexivity].
    destruct (Hpoint c0 sp Hin Hc) as [E1 _].
    apply andb_prop in Hc as [Hc Hr]. apply Z.eqb_eq in Hc. subst c0.
    rewrite !E1, !shift_unshift, Z.eqb_refl, Hr, !E1, !shift_unshift.
    reflexivity.
  - right. injection H as <- <-. cbn [fst snd data dx shape elem].
    repeat split; try reflexivity; try assumption.
    exists c, dims, ch'. split; [reflexivity|]. split; [exact Hn|].
    intros [|c0 sp] Hin; [reflexivity|]. unfold composited, blend.
    destruct ((c0 =? ch') && inside r sp) eqn:Hc; [|reflexivity].
    destruct (Hpoint c0 sp Hin Hc) as [E1 _].
    apply andb_prop in Hc as [Hc Hr]. apply Z.eqb_eq in Hc. subst c0.
    rewrite !E1, !shift_unshift. reflexivity.
Qed.

End Composite.

Lemma expandable_broadcast (a : list Z) :
  forall b, expandable a b = true -> broadcast_shapes a b = Ok b.
Proof.
  unfold expandable.
  induction a as [|x a IH]; intros [|y b] H; cbn in *; try discriminate.
  - reflexivity.
  - apply andb_prop in H as [Hx H]. rewrite (IH b H). cbn [rbind].
    destruct (Z.eqb_spec x y) as [->|Hxy]; [reflexivity|].
    destruct (Z.eqb_spec x 1) as [->|Hx1]; [reflexivity|discriminate].
Qed.

Lemma broadcast_to_target (a : list Z) :
  forall b, broadcast_shapes a b = Ok b -> expandable a b = true.
Proof.
  unfold expandable.
  induction a as [|x a IH]; intros [|y b] H; cbn in *; try discriminate.
  - reflexivity.
  - destruct (broadcast_shapes a b) as [r|e] eqn:Er; cbn in H; [|discriminate].
    destruct (Z.eqb_spec x y) as [->|Hxy].
    + injection H as ->. now rewrite (IH b Er).
    + destruct (Z.eqb_spec x 1) as [->|Hx1].
      * injection H as ->. now rewrite (IH b Er).
      * destruct (Z.eqb_spec y 1); [|discriminate]. injection H as E _.
        congruence.
Qed.

Section Outcome.
Context {num : Numerics}.

(** The two ways [composite] ends on a view: it raises before any write,
    or it returns with every index of [data] merged as [composited] says.
    It returns exactly when the channel index is in range and the mask can
    be written into the view, which the shapes alone decide. *)
Lemma composite_view_outcome (N : tensor) (r : region) (b : bool) (ch : Z)
  (img : Image) (res : result unit) (img' : Image) :
  composite (View r) N b ch img = (res, img') ->
  ((exists e, res = Raise e) /\ img' = img /\
   forall c dims ch',
     shape (data img) = c :: dims -> norm_index c ch = Ok ch' ->
     expandable (shape N) (region_shape r dims) = false) \/
  (res = Ok tt /\ dx img' = dx img /\
   shape (data img') = shape (data img) /\
   exists c dims ch',
     shape (data img) = c :: dims /\ norm_index c ch = Ok ch' /\
     expandable (shape N) (region_shape r dims) = true /\
     forall idx, in_bounds (shape (data img)) idx = true ->
       elem (data img') idx = composited N r ch' b (data img) idx).
Proof.
  unfold composite, patch_get, patch_set. run_monad. intros H.
  destruct (shape (data img)) as [|c dims] eqn:Hs.
  { unfold select at 1, sub_tensor at 1 in H. cbn [shape] in H.
    rewrite Hs in H. injection H as <- <-. left.
    split; [eauto|]. split; [reflexivity|]. discriminate. }
  rewrite (select_sub_tensor _ r ch c dims Hs) in H.
  destruct (norm_index c ch) as [ch'|e] eqn:Hn; cbn [rbind] in H.
  2: { injection H as <- <-. left. split; [eauto|]. split; [reflexivity|].
       intros ? ? ? [= <- <-] Hx. rewrite Hn in Hx. discriminate. }
  unfold maximum in H. cbn [shape elem] in H.
  destruct (expandable (shape N) (region_shape r dims)) eqn:He.
  2: { left.
       destruct (broadcast_shapes (shape N) (region_shape r dims))
         as [sm|e] eqn:Hb; cbn [rbind] in H.
       - unfold assign_channel at 1 in H.
         rewrite (select_sub_tensor _ r ch c dims Hs), Hs, Hn in H.
         cbn [rbind shape elem] in H.
         destruct (expandable sm (region_shape r dims)) eqn:He2.
         + assert (sm = region_shape r dims) as ->
               by (eapply broadcast_expandable; eauto).
           rewrite (broadcast_to_target _ _ Hb) in He. discriminate.
         + injection H as <- <-. split; [eauto|]. split; [reflexivity|].
           now intros ? ? ? [= <- <-].
       - injection H as <- <-. split; [eauto|]. split; [reflexivity|].
         now intros ? ? ? [= <- <-]. }
  rewrite (expandable_broadcast _ _ He) in H. cbn [rbind] in H.
  unfold assign_channel at 1 in H.
  rewrite (select_sub_tensor _ r ch c dims Hs), Hs, Hn in H.
  cbn [rbind shape elem] in H. rewrite expandable_refl in H.
  assert (Hpoint : forall c0 sp,
             in_bounds (c :: dims) (c0 :: sp) = true ->
             (c0 =? ch') && inside r sp = true ->
             bcast_index (region_shape r dims) (unshift r sp) = unshift r sp /\
             c0 = ch').
  { intros c0 sp Hin Hc. apply andb_prop in Hc as [Hc Hr].
    apply Z.eqb_eq in Hc. subst c0. split; [|reflexivity].
    apply bcast_index_in_bounds. apply in_bounds_unshift; [exact Hr|].
    unfold in_bounds in Hin. cbn in Hin. now apply andb_prop in Hin as [_ Hin]. }
  right. destruct b.
  - cbn [data dx] in H.
    match type of H with
    | context [select (sub_tensor ?d r) ch] => set (d1 := d) in H
    end.
    assert (Hs1 : shape d1 = c :: dims) by reflexivity.
    rewrite (select_sub_tensor d1 r ch c dims Hs1), Hn in H. cbn [rbind] in H.
    unfold assign_channel in H. cbn [tmap] in H.
    rewrite (select_sub_tensor d1 r ch c dims Hs1), Hs1, Hn in H.
    cbn [rbind shape elem] in H.
    rewrite expandable_refl in H. injection H as <- <-.
    subst d1. cbn [fst snd data dx shape elem].
    split; [reflexivity|]. split; [reflexivity|]. split; [reflexivity|].
    exists c, dims, ch'. split; [reflexivity|]. split; [exact Hn|].
    split; [exact He|].
    intros [|c0 sp] Hin; [reflexivity|]. unfold composited, blend.
    destruct ((c0 =? ch') && inside r sp) eqn:Hc; [|reflexivity].
    destruct (Hpoint c0 sp Hin Hc) as [E1 _].
    apply andb_prop in Hc as [Hc Hr]. apply Z.eqb_eq in Hc. subst c0.
    rewrite !E1, !shift_unshift, Z.eqb_refl, Hr, !E1, !shift_unshift.
    reflexivity.
  - injection H as <- <-. cbn [fst snd data dx shape elem].
    split; [reflexivity|]. split; [reflexivity|]. split; [reflexivity|].
    exists c, dims, ch'. split; [reflexivity|]. split; [exact Hn|].
    split; [exact He|].
    intros [|c0 sp] Hin; [reflexivity|]. unfold composited, blend.
    destruct ((c0 =? ch') && inside r sp) eqn:Hc; [|reflexivity].
    destruct (Hpoint c0 sp Hin Hc) as [E1 _].
    apply andb_prop in Hc as [Hc Hr]. apply Z.eqb_eq in Hc. subst c0.
    rewrite !E1, !shift_unshift. reflexivity.
Qed.

End Outcome.

Section Draw.
Context {num : Numerics}.

Lemma crop_view_shape_only center radius value n_dim (a b : Image) :
  shape (data a) = shape (data b) ->
  fst (crop center radius false value n_dim a) =
  fst (crop center radius false value n_dim b).
Proof.
  intros H. unfold crop. run_monad.
  destruct (n_dim =? 3).
  - destruct (rmap py_int center) as [[|i [|j [|k [|? ?]]]]|e]; try reflexivity.
    rewrite H.
    repeat match goal with
           | |- context [match ?x with Ok _ => _ | Raise _ => _ end] =>
               destruct x
           | |- context [let (_, _) := ?p in _] => destruct p
           end; reflexivity.
  - destruct (n_dim =? 2); [|reflexivity].
    destruct (rmap py_int center) as [[|i [|j [|? ?]]]|e]; try reflexivity.
    rewrite H.
    repeat match goal with
           | |- context [match ?x with Ok _ => _ | Raise _ => _ end] =>
               destruct x
           | |- context [let (_, _) := ?p in _] => destruct p
           end; reflexivity.
Qed.

Lemma draw_unfold segment width binary channel n_dim (img : Image) :
  draw_line_segment segment width binary channel n_dim img =
  match draw_plan segment width n_dim img with
  | Ok (p, new_patch) => composite p new_patch binary channel img
  | Raise e => (Raise e, img)
  end.
Proof.
  unfold draw_line_segment, draw_plan. run_monad.
  destruct (working_buffer segment width n_dim (dx img)) as [[[center R] X]|e];
    cbn [rbind fst snd]; [|reflexivity].
  pose proof (crop_readonly center R false (Fin 0) n_dim img) as Hro.
  destruct (crop center R false (Fin 0) n_dim img) as [[[p padding]|e] s];
    cbn in Hro; subst s; cbn [rbind fst snd]; [|reflexivity].
  destruct (trimmed_mask n_dim X padding); reflexivity.
Qed.

Lemma draw_plan_shape_only segment width n_dim (a b : Image) :
  dx a = dx b -> shape (data a) = shape (data b) ->
  draw_plan segment width n_dim a = draw_plan segment width n_dim b.
Proof.
  intros Hdx Hs. unfold draw_plan. rewrite Hdx.
  destruct (working_buffer segment width n_dim (dx b)) as [[[center R] X]|e];
    cbn [rbind fst snd]; [|reflexivity].
  now rewrite (crop_view_shape_only center R (Fin 0) n_dim a b Hs).
Qed.

Lemma draw_plan_view segment width n_dim (img : Image) p new_patch :
  draw_plan segment width n_dim img = Ok (p, new_patch) ->
  exists r, p = View r.
Proof.
  unfold draw_plan.
  destruct (working_buffer segment width n_dim (dx img)) as [[[center R] X]|e];
    cbn [rbind fst snd]; [|discriminate].
  pose proof (crop_unpadded_is_view center R (Fin 0) n_dim img) as Hv.
  destruct (fst (crop center R false (Fin 0) n_dim img)) as [[q padding]|e];
    cbn [rbind fst snd]; [|discriminate].
  destruct (trimmed_mask n_dim X padding); cbn [rbind]; [|discriminate].
  intros [= <- <-]. unfold is_view in Hv. cbn in Hv.
  destruct q; [eauto|contradiction].
Qed.

(** The buffer after a call: untouched, or merged with the planned mask. *)
Lemma draw_spec segment width binary channel n_dim (img : Image) res img' :
  draw_line_segment segment width binary channel n_dim img = (res, img') ->
  img' = img \/
  exists r new_patch c dims ch',
    draw_plan segment width n_dim img = Ok (View r, new_patch) /\
    res = Ok tt /\ dx img' = dx img /\
    shape (data img') = shape (data img) /\
    shape (data img) = c :: dims /\ norm_index c channel = Ok ch' /\
    forall idx, in_bounds (shape (data img)) idx = true ->
      elem (data img') idx = composited new_patch r ch' binary (data img) idx.
Proof.
  rewrite draw_unfold.
  destruct (draw_plan segment width n_dim img) as [[p N]|e] eqn:Hp.
  - destruct (draw_plan_view _ _ _ _ _ _ Hp) as [r ->]. intros H.
    destruct (composite_view_spec N r binary channel img res img' H)
      as [->|(Hres & Hdx & Hsh & c & dims & ch' & Hs & Hn & Hpt)];
      [now left|right].
    exists r, N, c, dims, ch'. repeat split; assumption.
  - intros [= <- <-]. now left.
Qed.

Lemma draw_shape segment width binary channel n_dim (img : Image) :
  shape (data (snd (draw_line_segment segment width binary channel n_dim img)))
  = shape (data img).
Proof.
  destruct (draw_line_segment segment width binary channel n_dim img)
    as [res img'] eqn:H.
  destruct (draw_spec _ _ _ _ _ _ _ _ H) as [->|(?&?&?&?&?&?&?&?&?&?)];
    cbn; congruence.
Qed.

(** The two ways a call of [draw_line_segment] ends: it raises and has
    written nothing, or it returns and has merged the planned mask. *)
Lemma draw_outcome segment width binary channel n_dim (img : Image) res img' :
  draw_line_segment segment width binary channel n_dim img = (res, img') ->
  ((exists e, res = Raise e) /\ img' = img) \/
  (res = Ok tt /\
   exists r new_patch c dims ch',
     draw_plan segment width n_dim img = Ok (View r, new_patch) /\
     dx img' = dx img /\
     shape (data img') = shape (data img) /\
     shape (data img) = c :: dims /\ norm_index c channel = Ok ch' /\
     expandable (shape new_patch) (region_shape r dims) = true /\
     forall idx, in_bounds (shape (data img)) idx = true ->
       elem (data img') idx = composited new_patch r ch' binary (data img) idx).
Proof.
  rewrite draw_unfold.
  destruct (draw_plan segment width n_dim img) as [[p N]|e] eqn:Hp.
  - destruct (draw_plan_view _ _ _ _ _ _ Hp) as [r ->]. intros H.
    destruct (composite_view_outcome N r binary channel img res img' H)
      as [(He & -> & _)|(Hres & Hdx & Hsh & c & dims & ch' & Hs & Hn & Hx & Hpt)].
    + left. split; [exact He|reflexivity].
    + right. split; [exact Hres|].
      exists r, N, c, dims, ch'. repeat split; assumption.
  - intros [= <- <-]. left. split; [eauto|reflexivity].
Qed.

(** A call returns as soon as its plan exists, the channel index is in
    range and the mask can be written into the view. *)
Lemma draw_succeeds segment width binary channel n_dim (img : Image)
  r new_patch c dims ch' :
  draw_plan segment width n_dim img = Ok (View r, new_patch) ->
  shape (data img) = c :: dims -> norm_index c channel = Ok ch' ->
  expandable (shape new_patch) (region_shape r dims) = true ->
  fst (draw_line_segment segment width binary channel n_dim img) = Ok tt.
Proof.
  intros Hp Hs Hn He. rewrite draw_unfold, Hp.
  destruct (composite (View r) new_patch binary channel img) as [res img']
    eqn:H. cbn [fst].
  destruct (composite_view_outcome _ _ _ _ _ _ _ H)
    as [(_ & _ & Hno)|(Hres & _)]; [|exact Hres].
  rewrite (Hno c dims ch' Hs Hn) in He. discriminate.
Qed.

Lemma draw_spacing segment width binary channel n_dim (img : Image) :
  dx (snd (draw_line_segment segment width binary channel n_dim img)) = dx img.
Proof.
  destruct (draw_line_segment segment width binary channel n_dim img)
    as [res img'] eqn:H. cbn [snd].
  destruct (draw_outcome _ _ _ _ _ _ _ _ H)
    as [[_ ->]|(_ & ? & ? & ? & ? & ? & _ & Hdx & _)]; [reflexivity|exact Hdx].
Qed.

Lemma norm_index_cases (c ch ch' : Z) :
  norm_index c ch = Ok ch' ->
  (ch' = ch \/ ch' = ch + c) /\ 0 <= ch' < c.
Proof.
  unfold norm_index.
  destruct (Z.leb_spec (- c) ch), (Z.ltb_spec ch c); cbn [andb];
    try discriminate.
  intros [= <-]. destruct (Z.ltb_spec ch 0); lia.
Qed.

End Draw.

(** ** Order facts on scalars *)

Lemma Qlt_b_irrefl (x : Q) : Qlt_b x x = false.
Proof.
  unfold Qlt_b. apply negb_false_iff. apply Qle_bool_iff. apply Qle_refl.
Qed.

Lemma Qlt_b_false (x y : Q) : Qlt_b x y = false <-> (y <= x)%Q.
Proof.
  unfold Qlt_b. rewrite negb_false_iff. apply Qle_bool_iff.
Qed.

Lemma Qlt_b_true (x y : Q) : Qlt_b x y = true <-> (x < y)%Q.
Proof.
  unfold Qlt_b. rewrite negb_true_iff. split.
  - intros H. apply Qnot_le_lt. intros Hle.
    apply Qle_bool_iff in Hle. congruence.
  - intros H. destruct (Qle_bool y x) eqn:E; [|reflexivity].
    apply Qle_bool_iff in E. exfalso. now apply (Qlt_not_le x y).
Qed.

Lemma flt_irrefl (a : scalar) : flt a a = false.
Proof. destruct a; cbn; auto using Qlt_b_irrefl. Qed.

(** [a <= b] and [b <= c] give [a <= c], each read as "not greater" on
    operands that are not NaN. *)
Lemma flt_false_trans (a b c : scalar) :
  b <> NaN -> flt b a = false -> flt c b = false -> flt c a = false.
Proof.
  destruct a, b, c; cbn; try reflexivity; try discriminate; try congruence.
  intros _. rewrite !Qlt_b_false. intros H1 H2. eapply Qle_trans; eauto.
Qed.

Lemma flt_trans (a b c : scalar) :
  flt a b = true -> flt b c = true -> flt a c = true.
Proof.
  destruct a, b, c; cbn; try reflexivity; try discriminate.
  rewrite !Qlt_b_true. apply Qlt_trans.
Qed.

Lemma fmax_never_less (m old : scalar) : flt (fmax m old) old = false.
Proof.
  unfold fmax.
  destruct m as [x| | |], old as [y| | |]; try reflexivity;
    try (cbn; apply Qlt_b_irrefl).
  cbn [flt]. destruct (Qlt_b y x) eqn:E; cbn [flt].
  - apply Qlt_b_false. apply Qlt_le_weak. now apply Qlt_b_true.
  - apply Qlt_b_irrefl.
Qed.

Lemma fmax_idem (m old : scalar) : fmax m (fmax m old) = fmax m old.
Proof.
  destruct m as [x| | |], old as [y| | |]; try reflexivity; cbn.
  - destruct (Qlt_b y x) eqn:E; cbn; [now rewrite Qlt_b_irrefl | now rewrite E].
  - now rewrite Qlt_b_irrefl.
Qed.

Lemma fmax_cases (m old : scalar) :
  m <> NaN -> old <> NaN ->
  (fmax m old = m /\ flt old m = true) \/ (fmax m old = old /\ flt old m = false).
Proof.
  intros Hm Ho. unfold fmax.
  destruct m, old; try congruence; destruct (flt _ _) eqn:E; auto.
Qed.

Lemma nan_or_not (a : scalar) : a = NaN \/ a <> NaN.
Proof. destruct a; (now left) || (right; discriminate). Qed.

(** Thresholding the merged value again, after the threshold replaced the
    old value, changes nothing, unless the old value was NaN. *)
Lemma binarize_idem (m old : scalar) :
  old <> NaN ->
  binarize (fmax m (binarize (fmax m old))) = binarize (fmax m old).
Proof.
  intros Ho. destruct (nan_or_not m) as [->|Hm]; [destruct old; reflexivity|].
  unfold binarize at 2 3, fgt.
  destruct (flt threshold (fmax m old)) eqn:Ev; unfold binarize, fgt.
  - destruct (fmax_cases m (Fin 1) Hm ltac:(discriminate)) as [[-> H1]|[-> _]].
    + now rewrite (flt_trans threshold (Fin 1) m eq_refl H1).
    + reflexivity.
  - destruct (fmax_cases m (Fin 0) Hm ltac:(discriminate)) as [[-> _]|[-> _]];
      [|reflexivity].
    destruct (fmax_cases m old Hm Ho) as [[E _]|[E H1]]; rewrite E in Ev.
    + now rewrite Ev.
    + now rewrite (flt_false_trans m old threshold Ho H1 Ev).
Qed.

Lemma blend_idem (b : bool) (m old : scalar) :
  b = false \/ old <> NaN -> blend b m (blend b m old) = blend b m old.
Proof.
  unfold blend. destruct b; intros [H|H]; try discriminate.
  - now apply binarize_idem.
  - apply fmax_idem.
  - apply fmax_idem.
Qed.

Section DrawTheorems.
Context {num : Numerics}.

Lemma run_calls_shape (cs : list call) : forall img,
  shape (data (run_calls cs img)) = shape (data img).
Proof.
  unfold run_calls.
  induction cs as [|c cs IH]; intros img; cbn [fold_left]; [reflexivity|].
  rewrite IH. unfold run_call. apply draw_shape.
Qed.

Lemma run_calls_spacing (cs : list call) : forall img,
  dx (run_calls cs img) = dx img.
Proof.
  unfold run_calls.
  induction cs as [|c cs IH]; intros img; cbn [fold_left]; [reflexivity|].
  rewrite IH. unfold run_call. apply draw_spacing.
Qed.

(** C5, amended.  After any sequence of earlier calls, with any flags, a
    call of [draw_line_segment] with [binary=False] whose mask holds no NaN
    decreases no value of the buffer: at every index the value after the
    call is the value before it or is greater. *)
Theorem draw_without_threshold_never_decreases
  (earlier : list call) (c : call) (img : Image) (idx : list Z) :
  call_binary c = false ->
  mask_defined c img = true ->
  in_bounds (shape (data img)) idx = true ->
  let before := elem (data (run_calls earlier img)) idx in
  let after := elem (data (run_call c (run_calls earlier img))) idx in
  after = before \/ flt before after = true.
Proof.
  intros Hb Hm Hin. cbv zeta.
  pose proof (run_calls_shape earlier img) as Hsh.
  pose proof (run_calls_spacing earlier img) as Hdx.
  set (B := run_calls earlier img) in *.
  rewrite <- Hsh in Hin. unfold run_call. rewrite Hb.
  destruct (draw_line_segment (call_segment c) (call_width c) false
              (call_channel c) (call_n_dim c) B) as [res A] eqn:H.
  cbn [snd].
  destruct (draw_outcome _ _ _ _ _ _ _ _ H)
    as [[_ ->]|(_ & r & N & c0 & dims & ch' & Hp & _ & _ & Hs & _ & Hx & Hpt)];
    [now left|].
  rewrite (Hpt idx Hin). unfold composited.
  destruct idx as [|i sp]; [now left|].
  destruct ((i =? ch') && inside r sp) eqn:Hc; [|now left].
  apply andb_prop in Hc as [_ Hr].
  unfold mask_defined in Hm.
  rewrite <- (draw_plan_shape_only _ _ _ B img Hdx Hsh), Hp in Hm.
  rewrite forallb_forall in Hm.
  assert (Hnan : elem N (bcast_index (shape N) (unshift r sp)) <> NaN).
  { assert (Hi : in_bounds (shape N) (bcast_index (shape N) (unshift r sp))
                 = true).
    { apply (bcast_in_bounds _ (region_shape r dims)); [exact Hx|].
      apply in_bounds_unshift; [exact Hr|].
      rewrite Hs in Hin. unfold in_bounds in Hin |- *. cbn [forallb2] in Hin.
      now apply andb_prop in Hin as [_ Hin]. }
    specialize (Hm _ (in_bounds_indices _ _ Hi)).
    intros E. rewrite E in Hm. discriminate. }
  unfold blend.
  destruct (nan_or_not (elem (data B) (i :: sp))) as [E|Ho].
  - left. rewrite E.
    now destruct (elem N (bcast_index (shape N) (unshift r sp))).
  - destruct (fmax_cases _ _ Hnan Ho) as [[-> Hlt]|[-> _]];
      [now right|now left].
Qed.

(** C7, amended.  Drawing the same segment a second time, with the same
    width, channel and flag, onto the buffer the first call left, leaves
    that buffer unchanged, provided [binary] is false or the buffer held no
    NaN before the first call. *)
Theorem redraw_leaves_buffer_unchanged
  (segment : list scalar * list scalar) (width : scalar) (binary : bool)
  (channel n_dim : Z) (img : Image) :
  binary = false \/
  (forall idx, in_bounds (shape (data img)) idx = true ->
               elem (data img) idx <> NaN) ->
  same_image
    (snd (draw_line_segment segment width binary channel n_dim
            (snd (draw_line_segment segment width binary channel n_dim img))))
    (snd (draw_line_segment segment width binary channel n_dim img)).
Proof.
  intros Hcond.
  destruct (draw_line_segment segment width binary channel n_dim img)
    as [res1 once] eqn:H1. cbn [snd].
  destruct (draw_line_segment segment width binary channel n_dim once)
    as [res2 twice] eqn:H2. cbn [snd].
  assert (Hrefl : forall a, same_image a a) by (intros a; repeat split).
  destruct (draw_spec _ _ _ _ _ _ _ _ H2)
    as [->|(r2 & N2 & c2 & dims2 & ch2 & Hp2 & _ & Hdx2 & Hsh2 & Hs2 & Hn2 & Hpt2)];
    [apply Hrefl|].
  destruct (draw_spec _ _ _ _ _ _ _ _ H1)
    as [->|(r1 & N1 & c1 & dims1 & ch1 & Hp1 & _ & Hdx1 & Hsh1 & Hs1 & Hn1 & Hpt1)].
  { rewrite H1 in H2. injection H2 as _ <-. apply Hrefl. }
  rewrite (draw_plan_shape_only _ _ _ once img Hdx1 Hsh1), Hp1 in Hp2.
  injection Hp2 as <- <-.
  rewrite Hsh1, Hs1 in Hs2. injection Hs2 as <- <-.
  rewrite Hn1 in Hn2. injection Hn2 as <-.
  split; [exact Hdx2|]. split; [exact Hsh2|].
  intros idx Hin. rewrite Hsh2 in Hin. rewrite (Hpt2 idx Hin).
  rewrite Hsh1 in Hin. unfold composited. rewrite (Hpt1 idx Hin).
  unfold composited. destruct idx as [|i sp]; [reflexivity|].
  destruct ((i =? ch1) && inside r1 sp); [|reflexivity].
  apply blend_idem. destruct Hcond as [Hb|Hnan]; [now left|right].
  now apply Hnan.
Qed.

Lemma norm_index_last (c : Z) :
  1 <= c -> norm_index c (-1) = Ok (c - 1) /\ norm_index c (c - 1) = Ok (c - 1).
Proof.
  intros Hc. unfold norm_index. split.
  - destruct (Z.leb_spec (- c) (-1)), (Z.ltb_spec (-1) c); try lia.
    cbn [andb]. change (-1 <? 0) with true. cbv iota. f_equal. lia.
  - destruct (Z.leb_spec (- c) (c - 1)), (Z.ltb_spec (c - 1) c); try lia.
    cbn [andb]. destruct (Z.ltb_spec (c - 1) 0); [lia|reflexivity].
Qed.

Lemma select_last (t : tensor) (c : Z) (dims : list Z) :
  shape t = c :: dims -> 1 <= c -> select t (-1) = select t (c - 1).
Proof.
  intros Hs Hc. unfold select. rewrite Hs.
  destruct (norm_index_last c Hc) as [-> ->]. reflexivity.
Qed.

Lemma assign_channel_last (d : tensor) (r : region) (v : tensor) c dims :
  shape d = c :: dims -> 1 <= c ->
  assign_channel d r (-1) v = assign_channel d r (c - 1) v.
Proof.
  intros Hs Hc. unfold assign_channel.
  rewrite (select_sub_tensor d r (-1) c dims Hs).
  rewrite (select_sub_tensor d r (c - 1) c dims Hs). rewrite Hs.
  destruct (norm_index_last c Hc) as [-> ->]. reflexivity.
Qed.

Lemma assign_channel_shape d r ch v d' :
  assign_channel d r ch v = Ok d' -> shape d' = shape d.
Proof.
  unfold assign_channel.
  destruct (select (sub_tensor d r) ch); cbn [rbind]; [|discriminate].
  destruct (match shape d with [] => _ | _ :: _ => _ end); cbn [rbind];
    [|discriminate].
  destruct (expandable _ _); [|discriminate].
  intros [= <-]. reflexivity.
Qed.

Lemma composite_last (r : region) (N : tensor) (b : bool) (img : Image) c dims :
  shape (data img) = c :: dims -> 1 <= c ->
  composite (View r) N b (-1) img = composite (View r) N b (c - 1) img.
Proof.
  intros Hs Hc. unfold composite, patch_get, patch_set. run_monad.
  assert (Hsub : forall d, shape d = c :: dims ->
                           select (sub_tensor d r) (-1)
                           = select (sub_tensor d r) (c - 1)).
  { intros d Hd. apply (select_last _ c (region_shape r dims)); [|exact Hc].
    unfold sub_tensor. cbn [shape]. now rewrite Hd. }
  rewrite (Hsub _ Hs).
  destruct (select (sub_tensor (data img) r) (c - 1)) as [cur|e]; [|reflexivity].
  destruct (maximum N cur) as [m|e]; [|reflexivity].
  rewrite (assign_channel_last _ r m c dims Hs Hc).
  destruct (assign_channel (data img) r (c - 1) m) as [d1|e] eqn:Ha;
    [|reflexivity].
  destruct b; [|reflexivity].
  assert (Hs1 : shape d1 = c :: dims)
    by (rewrite (assign_channel_shape _ _ _ _ _ Ha); exact Hs).
  cbn [data dx]. rewrite (Hsub _ Hs1).
  destruct (select (sub_tensor d1 r) (c - 1)) as [cur1|e]; [|reflexivity].
  now rewrite (assign_channel_last _ r _ c dims Hs1 Hc).
Qed.

(** C10.  With the default channel index -1, [draw_line_segment] does
    exactly what it does with the index of the last channel.  When it
    returns, the channel it has merged the mask into, and thresholded if
    [binary] is set, is the last one, [c - 1] of [c]: every value of that
    channel inside the view is the merge of the mask with the old value,
    and every other value of the buffer is the old one.  When it raises it
    has written nothing. *)
Theorem default_channel_is_last_channel
  (segment : list scalar * list scalar) (width : scalar) (binary : bool)
  (n_dim : Z) (img : Image) (c : Z) (dims : list Z) :
  shape (data img) = c :: dims -> 1 <= c ->
  let call := draw_line_segment segment width binary default_channel n_dim in
  call img = draw_line_segment segment width binary (c - 1) n_dim img /\
  (((exists e, fst (call img) = Raise e) /\ snd (call img) = img) \/
   (fst (call img) = Ok tt /\
    exists r new_patch,
      draw_plan segment width n_dim img = Ok (View r, new_patch) /\
      forall idx, in_bounds (shape (data img)) idx = true ->
        elem (data (snd (call img))) idx
        = composited new_patch r (c - 1) binary (data img) idx)).
Proof.
  intros Hs Hc. cbv zeta. unfold default_channel. split.
  - rewrite !draw_unfold.
    destruct (draw_plan segment width n_dim img) as [[p N]|e] eqn:Hp;
      [|reflexivity].
    destruct (draw_plan_view _ _ _ _ _ _ Hp) as [r ->].
    now apply (composite_last r N binary img c dims).
  - destruct (draw_line_segment segment width binary (-1) n_dim img)
      as [res img'] eqn:H. cbn [fst snd].
    destruct (draw_outcome _ _ _ _ _ _ _ _ H)
      as [[He ->]|(-> & r & N & c1 & dims1 & ch' & Hp & _ & _ & Hs1 & Hn & _
                   & Hpt)].
    + left. split; [exact He|reflexivity].
    + right. split; [reflexivity|]. exists r, N. split; [exact Hp|].
      rewrite Hs in Hs1. injection Hs1 as <- <-.
      destruct (norm_index_last c Hc) as [E _]. rewrite E in Hn.
      injection Hn as <-. exact Hpt.
Qed.

End DrawTheorems.

(** ** The scenarios of the line from (10,10,5) to (10,10,15) and of the
    segment of length zero *)

Section Scenarios.
Context {num : Numerics}.

Lemma scenario_length :
  sqrtQ (100 # 1) = 10 # 1 ->
  fsqrt (vsum (map (fun d => fmul d d)
                 (zipWith fsub (pt [10; 10; 5]) (pt [10; 10; 15]))))
  = Fin (10 # 1).
Proof.
  intros H.
  assert (E : vsum (map (fun d => fmul d d)
                      (zipWith fsub (pt [10; 10; 5]) (pt [10; 10; 15])))
              = Fin (100 # 1)) by (vm_compute; reflexivity).
  rewrite E. unfold fsqrt. change (Qneg_b (100 # 1)) with false. cbv iota.
  now rewrite H.
Qed.

Lemma scenario_geometry :
  sqrtQ (100 # 1) = 10 # 1 ->
  segment_geometry (pt [10; 10; 5], pt [10; 10; 15]) (Fin 1) 3
  = Ok ([Fin (20 # 2); Fin (20 # 2); Fin (20 # 2)], 7, [7; 7; -3], [7; 7; 17]).
Proof.
  intros H. unfold segment_geometry. cbn [fst snd].
  rewrite (scenario_length H). vm_compute. reflexivity.
Qed.

Lemma scenario_buffer (dxs : list scalar) :
  sqrtQ (100 # 1) = 10 # 1 ->
  working_buffer (pt [10; 10; 5], pt [10; 10; 15]) (Fin 1) 3 dxs
  = Raise IndexError.
Proof.
  intros H. unfold working_buffer. rewrite (scenario_geometry H).
  cbn [rbind].
  rewrite alloc_ok
    by (apply allocatable_small; reflexivity).
  vm_compute. reflexivity.
Qed.

(** C2, at the segment from (10,10,5) to (10,10,15) of width 1.  The
    working buffer has edge 15, center index 7; the end points are placed at
    the whole segment length, not half of it, from the center: (7,7,-3) and
    (7,7,17).  The second is outside the buffer and the rasterization
    raises [IndexError]. *)
Theorem line_end_point_outside_working_buffer :
  sqrtQ (100 # 1) = 10 # 1 ->
  exists center,
    segment_geometry (pt [10; 10; 5], pt [10; 10; 15]) (Fin 1) 3
    = Ok (center, 7, [7; 7; -3], [7; 7; 17]) /\
    in_bounds (repeat (2 * 7 + 1) 3) [7; 7; 17] = false /\
    forall dxs,
      working_buffer (pt [10; 10; 5], pt [10; 10; 15]) (Fin 1) 3 dxs
      = Raise IndexError.
Proof.
  intros H. eexists. split; [apply (scenario_geometry H)|].
  split; [reflexivity|]. intros dxs. now apply scenario_buffer.
Qed.

(** C3.  On every image, the call of the scenario (end points (10,10,5) and
    (10,10,15), width 1, channel 0) raises [IndexError] and leaves the image
    as it was: no value along the line is set. *)
Theorem line_scenario_raises (img : Image) :
  sqrtQ (100 # 1) = 10 # 1 ->
  draw_line_segment (pt [10; 10; 5], pt [10; 10; 15]) (Fin 1) default_binary 0 3
    img
  = (Raise IndexError, img).
Proof.
  intros H. rewrite draw_unfold. unfold draw_plan.
  now rewrite (scenario_buffer (dx img) H).
Qed.

Lemma zipWith_first {A} (l : list A) : zipWith (fun a _ => a) l l = l.
Proof. induction l as [|a l IH]; cbn; [reflexivity|now rewrite IH]. Qed.

(** The line from a point to itself is that point. *)
Lemma line_nd_point (l : list Z) : line_nd l l = [l].
Proof.
  unfold line_nd.
  assert (E : fold_right Z.max 0 (zipWith (fun a b => Z.abs (b - a)) l l) = 0).
  { induction l as [|a l IH]; cbn [zipWith fold_right]; [reflexivity|].
    rewrite IH, Z.sub_diag. reflexivity. }
  rewrite E. cbn. now rewrite zipWith_first.
Qed.

Lemma norm_index_outside (n v : Z) :
  v < - n \/ n <= v -> norm_index n v = Raise IndexError.
Proof.
  intros H. unfold norm_index.
  destruct (Z.leb_spec (- n) v), (Z.ltb_spec v n); try reflexivity; lia.
Qed.

Lemma Qnum_self_difference (a : Q) : Qnum (a + - a) = 0.
Proof. destruct a as [n d]. cbn. ring. Qed.

Lemma fdiv_zero_by_zero (x y : Q) :
  Qnum x = 0 -> Qnum y = 0 -> fdiv (Fin x) (Fin y) = NaN.
Proof. intros Hx Hy. unfold fdiv, Qzero_b. now rewrite Hx, Hy. Qed.

Lemma half_of_zero (s : Q) :
  Qnum s = 0 -> py_int (fceil (fdiv (Fin s) (Fin 2))) = Ok 0.
Proof.
  intros Hs. destruct s as [n d]. cbn in Hs. subst n. reflexivity.
Qed.

(** The difference of a point with itself, coordinate by coordinate. *)
Lemma self_difference (p : list Q) :
  zipWith fsub (map Fin p) (map Fin p) = map (fun a => Fin (a + - a)) p.
Proof. induction p as [|a p IH]; cbn; [reflexivity|now rewrite IH]. Qed.

(** A sum of squares of zeros is a zero. *)
Lemma sum_of_zero_squares (p : list Q) :
  forall acc, Qnum acc = 0 ->
    exists z,
      fold_left fadd
        (map (fun d => fmul d d) (map (fun a => Fin (a + - a)) p)) (Fin acc)
      = Fin z /\ Qnum z = 0.
Proof.
  induction p as [|a p IH]; intros acc Hacc; cbn [map fold_left].
  - eauto.
  - cbn [fmul fadd]. apply IH.
    destruct a as [na da], acc as [nc dc]. cbn in *. subst nc. ring.
Qed.

Lemma zero_direction (p : list Q) (s : Q) :
  Qnum s = 0 ->
  map (fun d => fdiv d (Fin s)) (map (fun a => Fin (a + - a)) p)
  = map (fun _ => NaN) p.
Proof.
  intros Hs. induction p as [|a p IH]; cbn [map]; [reflexivity|].
  now rewrite IH, (fdiv_zero_by_zero _ s (Qnum_self_difference a) Hs).
Qed.

Lemma nan_end_point (p : list Q) (s r : Q) :
  map (fun v => to_int (fround v))
      (zipWith fadd (map (fmul (Fin s)) (map (fun _ => NaN) p))
         (repeat (Fin r) (length p)))
  = repeat (int_of_nonfinite NaN) (length p).
Proof.
  induction p as [|a p IH]; cbn [map length repeat zipWith];
    [reflexivity|].
  now rewrite IH.
Qed.

(** Lines 121-138 on a segment whose two points are the same: the patch
    radius is [int(2*width)] and both end points are made of NaN. *)
Lemma zero_length_geometry (p : list Q) (w : Q) :
  (forall q, Qnum q = 0 -> Qnum (sqrtQ q) = 0) ->
  exists center,
    segment_geometry (map Fin p, map Fin p) (Fin w) (Z.of_nat (length p))
    = Ok (center, Qtrunc (2 * w),
          repeat (int_of_nonfinite NaN) (length p),
          repeat (int_of_nonfinite NaN) (length p)).
Proof.
  intros Hsqrt. unfold segment_geometry. cbn [fst snd].
  rewrite Nat2Z.id, self_difference. unfold vsum.
  destruct (sum_of_zero_squares p 0 eq_refl) as (z & -> & Hz).
  unfold fsqrt, Qneg_b. rewrite Hz. cbn [Z.ltb Z.compare].
  pose proof (Hsqrt z Hz) as Hs. set (s := sqrtQ z) in *.
  rewrite (zero_direction p s Hs), (half_of_zero s Hs).
  cbn [rbind py_int fmul fneg Z.add].
  rewrite !nan_end_point. eexists. reflexivity.
Qed.

(** C6, amended.  For every segment whose two end points are the same
    point of [n_dim >= 1] finite coordinates, and every finite width whose
    working buffer, of edge [2*int(2*width)+1], can be allocated: the unit
    direction is 0/0, that is NaN, and both end points of the line are the
    integer made of NaN.  When that integer is outside the working buffer
    (it is the least 64-bit integer on x86-64), the call raises
    [IndexError] before any write and leaves the image as it was: the
    segment is neither rejected by a validation nor drawn as one voxel, and
    no NaN reaches the buffer.  The square root of zero is taken to be
    zero. *)
Theorem zero_length_segment_raises
  (p : list Q) (w : Q) (binary : bool) (channel : Z) (img : Image) :
  p <> [] ->
  (forall q, Qnum q = 0 -> Qnum (sqrtQ q) = 0) ->
  allocatable (repeat (2 * Qtrunc (2 * w) + 1) (length p)) = true ->
  int_of_nonfinite NaN < - (2 * Qtrunc (2 * w) + 1) \/
  2 * Qtrunc (2 * w) + 1 <= int_of_nonfinite NaN ->
  draw_line_segment (map Fin p, map Fin p) (Fin w) binary channel
    (Z.of_nat (length p)) img
  = (Raise IndexError, img).
Proof.
  intros Hp Hsqrt Ha Hv. rewrite draw_unfold.
  unfold draw_plan, working_buffer.
  destruct (zero_length_geometry p w Hsqrt) as [center ->].
  cbn [rbind]. rewrite Nat2Z.id, (alloc_ok _ _ Ha). cbn [rbind].
  rewrite line_nd_point.
  unfold index_put. cbn [rmap shape full]. unfold norm_point at 1.
  rewrite !repeat_length, Nat.eqb_refl.
  destruct p as [|a p]; [contradiction|].
  cbn [length repeat combine rmap fst snd].
  now rewrite (norm_index_outside _ _ Hv).
Qed.

End Scenarios.

(** ** Evaluations with the reference instance *)

Lemma line_end_point_outside_working_buffer_witness :
  exists center,
    segment_geometry (num := reference_numerics)
      (pt [10; 10; 5], pt [10; 10; 15]) (Fin 1) 3
    = Ok (center, 7, [7; 7; -3], [7; 7; 17]) /\
    in_bounds (repeat (2 * 7 + 1) 3) [7; 7; 17] = false /\
    forall dxs,
      working_buffer (num := reference_numerics)
        (pt [10; 10; 5], pt [10; 10; 15]) (Fin 1) 3 dxs
      = Raise IndexError.
Proof.
  apply (line_end_point_outside_working_buffer (num := reference_numerics)).
  reflexivity.
Defined.

Lemma line_scenario_raises_witness :
  draw_line_segment (num := reference_numerics)
    (pt [10; 10; 5], pt [10; 10; 15]) (Fin 1) default_binary 0 3
    (uniform_image [3; 21; 21; 21] (Fin 0) [1; 1; 1])
  = (Raise IndexError, uniform_image [3; 21; 21; 21] (Fin 0) [1; 1; 1]).
Proof.
  apply (line_scenario_raises (num := reference_numerics)). reflexivity.
Defined.

(** C6 as stated fails: the call with both end points at (5,5,5) ends in
    [IndexError], which is no validation error, and draws no voxel. *)
Lemma zero_length_segment_no_policy :
  fst (draw_line_segment (num := reference_numerics)
         (pt [5; 5; 5], pt [5; 5; 5]) (Fin 1) false 0 3
         (uniform_image [3; 21; 21; 21] (Fin 0) [1; 1; 1]))
  = Raise IndexError /\
  elem (data (snd (draw_line_segment (num := reference_numerics)
                     (pt [5; 5; 5], pt [5; 5; 5]) (Fin 1) false 0 3
                     (uniform_image [3; 21; 21; 21] (Fin 0) [1; 1; 1]))))
    [0; 5; 5; 5]
  = Fin 0.
Proof. split; vm_compute; reflexivity. Qed.

Lemma sqrt_floor_zero (q : Q) : Qnum q = 0 -> Qnum (sqrt_floor q) = 0.
Proof. intros H. unfold sqrt_floor. cbn [Qnum]. now rewrite H. Qed.

Lemma zero_length_segment_raises_witness :
  draw_line_segment (num := reference_numerics)
    (map Fin [5%Q; 7 # 2], map Fin [5%Q; 7 # 2]) (Fin (3 # 2)) true 1
    (Z.of_nat (length [5%Q; 7 # 2]))
    (uniform_image [3; 21; 21] (Fin 0) [1; 1])
  = (Raise IndexError, uniform_image [3; 21; 21] (Fin 0) [1; 1]).
Proof.
  apply (zero_length_segment_raises (num := reference_numerics)
           [5%Q; 7 # 2] (3 # 2) true 1
           (uniform_image [3; 21; 21] (Fin 0) [1; 1])).
  - discriminate.
  - exact sqrt_floor_zero.
  - vm_compute. reflexivity.
  - left. vm_compute. reflexivity.
Defined.

(** C5 as stated fails: on a buffer holding 1/2 everywhere a call with
    [binary=True] resets the voxel (7,7,8) of channel 0, a corner of the
    patch, to 0. *)
Lemma threshold_draw_decreases :
  let img := uniform_image [3; 21; 21; 21] (Fin (1 # 2)) [1; 1; 1] in
  let after :=
    snd (draw_line_segment (num := reference_numerics)
           short_segment (Fin 1) true 0 3 img) in
  in_bounds (shape (data img)) [0; 7; 7; 8] = true /\
  elem (data img) [0; 7; 7; 8] = Fin (1 # 2) /\
  elem (data after) [0; 7; 7; 8] = Fin 0 /\
  flt (elem (data after) [0; 7; 7; 8]) (elem (data img) [0; 7; 7; 8]) = true.
Proof. cbv zeta. repeat split; vm_compute; reflexivity. Qed.

Lemma draw_without_threshold_never_decreases_witness :
  let before :=
    elem (data (run_calls (num := reference_numerics)
                  [mkCall short_segment (Fin 1) true 0 3]
                  (uniform_image [3; 21; 21; 21] (Fin (1 # 2)) [1; 1; 1])))
      [0; 10; 10; 11] in
  let after :=
    elem (data (run_call (num := reference_numerics)
                  (mkCall short_segment (Fin 1) false 0 3)
                  (run_calls (num := reference_numerics)
                     [mkCall short_segment (Fin 1) true 0 3]
                     (uniform_image [3; 21; 21; 21] (Fin (1 # 2)) [1; 1; 1]))))
      [0; 10; 10; 11] in
  after = before \/ flt before after = true.
Proof.
  apply (draw_without_threshold_never_decreases (num := reference_numerics)
           [mkCall short_segment (Fin 1) true 0 3]
           (mkCall short_segment (Fin 1) false 0 3)
           (uniform_image [3; 21; 21; 21] (Fin (1 # 2)) [1; 1; 1])
           [0; 10; 10; 11]).
  - reflexivity.
  - vm_compute. reflexivity.
  - reflexivity.
Defined.

(** C7 as stated fails: on a buffer of NaN a call with [binary=True]
    leaves 0 at the middle of the line (the maximum with NaN is NaN, which
    is not above the threshold), and the same call again leaves 1 there. *)
Lemma redraw_changes_nan_buffer :
  let img := uniform_image [3; 21; 21; 21] NaN [1; 1; 1] in
  let once :=
    snd (draw_line_segment (num := reference_numerics)
           short_segment (Fin 1) true 0 3 img) in
  let twice :=
    snd (draw_line_segment (num := reference_numerics)
           short_segment (Fin 1) true 0 3 once) in
  elem (data once) [0; 10; 10; 11] = Fin 0 /\
  elem (data twice) [0; 10; 10; 11] = Fin 1 /\
  ~ same_image twice once.
Proof.
  cbv zeta.
  assert (H1 : elem (data (snd (draw_line_segment (num := reference_numerics)
                  short_segment (Fin 1) true 0 3
                  (uniform_image [3; 21; 21; 21] NaN [1; 1; 1]))))
                 [0; 10; 10; 11] = Fin 0) by (vm_compute; reflexivity).
  assert (H2 : elem (data (snd (draw_line_segment (num := reference_numerics)
                  short_segment (Fin 1) true 0 3
                  (snd (draw_line_segment (num := reference_numerics)
                     short_segment (Fin 1) true 0 3
                     (uniform_image [3; 21; 21; 21] NaN [1; 1; 1]))))))
                 [0; 10; 10; 11] = Fin 1) by (vm_compute; reflexivity).
  split; [exact H1|]. split; [exact H2|].
  intros (_ & Hsh & Hpt).
  specialize (Hpt [0; 10; 10; 11]). rewrite H1, H2 in Hpt.
  assert (Hin : in_bounds
            (shape (data (snd (draw_line_segment (num := reference_numerics)
               short_segment (Fin 1) true 0 3
               (snd (draw_line_segment (num := reference_numerics)
                  short_segment (Fin 1) true 0 3
                  (uniform_image [3; 21; 21; 21] NaN [1; 1; 1])))))))
            [0; 10; 10; 11] = true).
  { rewrite !draw_shape. reflexivity. }
  specialize (Hpt Hin). clear H1 H2 Hin Hsh. discriminate Hpt.
Qed.

(** NaN needs no special input: on a buffer of zeros a segment one cell
    outside the volume leaves of its mask only the plane three cells away
    from the line, where the blur is 0; the division by the maximum 0 gives
    NaN, and NaN is written.  A thresholded segment drawn twice over that
    place then leaves 0 the first time and 1 the second. *)
Lemma redraw_changes_buffer_of_zeros :
  let outside := mkCall (pt [-3; 10; 10], pt [-3; 10; 12]) (Fin 1) false 0 3 in
  let inside := mkCall (pt [0; 10; 10], pt [0; 10; 12]) (Fin 1) true 0 3 in
  let zeros := uniform_image [3; 21; 21; 21] (Fin 0) [1; 1; 1] in
  map (fun calls =>
         elem (data (run_calls (num := reference_numerics) calls zeros))
           [0; 0; 10; 11])
      [[outside]; [outside; inside]; [outside; inside; inside]]
  = [NaN; Fin 0; Fin 1].
Proof. vm_compute. reflexivity. Qed.

Lemma redraw_leaves_buffer_unchanged_witness :
  same_image
    (snd (draw_line_segment (num := reference_numerics)
            short_segment (Fin 1) true 0 3
            (snd (draw_line_segment (num := reference_numerics)
                    short_segment (Fin 1) true 0 3
                    (uniform_image [3; 21; 21; 21] (Fin (1 # 2)) [1; 1; 1])))))
    (snd (draw_line_segment (num := reference_numerics)
            short_segment (Fin 1) true 0 3
            (uniform_image [3; 21; 21; 21] (Fin (1 # 2)) [1; 1; 1]))).
Proof.
  apply (redraw_leaves_buffer_unchanged (num := reference_numerics)).
  right. intros idx _. discriminate.
Defined.

Lemma default_channel_is_last_channel_witness :
  let call :=
    draw_line_segment (num := reference_numerics) short_segment (Fin 1) true
      default_channel 3 in
  let img := uniform_image [1; 21; 21; 21] (Fin (1 # 2)) [1; 1; 1] in
  call img
  = draw_line_segment (num := reference_numerics) short_segment (Fin 1) true
      (1 - 1) 3 img /\
  (((exists e, fst (call img) = Raise e) /\ snd (call img) = img) \/
   (fst (call img) = Ok tt /\
    exists r new_patch,
      draw_plan (num := reference_numerics) short_segment (Fin 1) 3 img
      = Ok (View r, new_patch) /\
      forall idx, in_bounds (shape (data img)) idx = true ->
        elem (data (snd (call img))) idx
        = composited new_patch r (1 - 1) true (data img) idx)).
Proof.
  apply (default_channel_is_last_channel (num := reference_numerics)
           short_segment (Fin 1) true 3
           (uniform_image [1; 21; 21; 21] (Fin (1 # 2)) [1; 1; 1])
           1 [21; 21; 21]).
  - reflexivity.
  - lia.
Defined.

(** * Further properties of [crop] *)

Lemma py_slice_plain (n s e : Z) :
  0 <= s <= e -> e <= n -> py_slice n (s, e) = (s, e - s).
Proof.
  intros Hs He. unfold py_slice. cbn [fst snd].
  destruct (Z.ltb_spec s 0), (Z.ltb_spec e 0); try lia.
  f_equal; lia.
Qed.

(** The two slices of one axis, for a window that meets or touches the
    volume: the cells of [data] from [max (i - radius) 0] on, and the cells
    of the padded patch from the low padding on, equally many. *)
Lemma axis_slices (i radius n : Z) :
  0 <= radius -> 0 <= n -> - (radius + 1) <= i <= n + radius ->
  let hi := if i + radius >? n - 1 then i + radius - (n - 1) else 0 in
  let lo := if i - radius <? 0 then radius - i else 0 in
  py_slice n (i - (radius - lo), i + (radius - hi) + 1)
  = (Z.max (i - radius) 0, 2 * radius + 1 - lo - hi) /\
  py_slice (2 * radius + 1) (lo, 2 * radius + 1 - hi)
  = (lo, 2 * radius + 1 - lo - hi) /\
  0 <= lo /\ 0 <= hi /\ lo + hi <= 2 * radius + 1 /\
  lo = Z.max (radius - i) 0 /\ hi = Z.max (i + radius - (n - 1)) 0.
Proof.
  intros Hr Hn Hi. cbv zeta.
  destruct (Z.gtb_spec (i + radius) (n - 1));
  destruct (Z.ltb_spec (i - radius) 0);
  (split; [rewrite py_slice_plain by lia; f_equal; lia|]);
  (split; [rewrite py_slice_plain by lia; f_equal; lia|]); lia.
Qed.

(** The cell [a] of the padded patch on one axis: it lies in the slice that
    receives [data] exactly when [i - radius + a] is an index of the
    volume, and it then receives the cell of that index. *)
Lemma axis_cell (i radius n a : Z) :
  0 <= radius -> 0 <= n -> - (radius + 1) <= i <= n + radius ->
  0 <= a < 2 * radius + 1 ->
  let lo := Z.max (radius - i) 0 in
  let hi := Z.max (i + radius - (n - 1)) 0 in
  let len := 2 * radius + 1 - lo - hi in
  ((lo <=? a) && (a <? lo + len)
   = (0 <=? i - radius + a) && (i - radius + a <? n)) /\
  ((lo <=? a) && (a <? lo + len) = true ->
   Z.max (i - radius) 0 + (a - lo) = i - radius + a /\
   (if len =? 1 then 0 else a - lo) = a - lo).
Proof.
  intros Hr Hn Hi Ha. cbv zeta. split.
  - destruct (Z.leb_spec (Z.max (radius - i) 0) a);
    destruct (Z.leb_spec 0 (i - radius + a));
    repeat match goal with
           | |- context [?x <? ?y] => destruct (Z.ltb_spec x y)
           end; cbn [andb]; try reflexivity; lia.
  - intros H. apply andb_prop in H as [H1 H2].
    apply Z.leb_le in H1. apply Z.ltb_lt in H2. split; [lia|].
    destruct (Z.eqb_spec
                (2 * radius + 1 - Z.max (radius - i) 0
                 - Z.max (i + radius - (n - 1)) 0) 1); lia.
Qed.

(** X1.  The padded patch of a three-dimensional crop, for a window that
    meets or touches the volume and a patch that can be allocated: the cell
    (a, b, d) of channel [ch] holds the value of [data] at
    (i - radius + a, j - radius + b, k - radius + d) when that index is in
    the volume, and the fill value otherwise. *)
Theorem crop_padded_values_3d {num : Numerics}
  (center : list scalar) (i j k radius : Z) (value : scalar) (img : Image)
  (c s0 s1 s2 ch a b d : Z) :
  shape (data img) = [c; s0; s1; s2] ->
  rmap py_int center = Ok [i; j; k] ->
  0 <= radius ->
  allocatable [c; 2 * radius + 1; 2 * radius + 1; 2 * radius + 1] = true ->
  window_near radius [i; j; k] [s0; s1; s2] ->
  in_bounds [c; 2 * radius + 1; 2 * radius + 1; 2 * radius + 1] [ch; a; b; d]
  = true ->
  exists t padding,
    crop center radius true value 3 img = (Ok (Owned t, padding), img) /\
    elem t [ch; a; b; d]
    = if in_bounds [s0; s1; s2]
           [i - radius + a; j - radius + b; k - radius + d]
      then elem (data img) [ch; i - radius + a; j - radius + b; k - radius + d]
      else fmul (Fin 1) value.
Proof.
  intros Hs Hidx Hr Ha Hw Hin.
  pose proof (allocatable_edge _ _ 0 _ Ha) as Hp.
  pose proof (numpy_bounds_near3 _ _ _ _ _ _ _ Hr Hp Hw) as Hnp.
  inversion Hw as [|? ? ? ? [Hs0 Hi] Hw1]; subst.
  inversion Hw1 as [|? ? ? ? [Hs1 Hj] Hw2]; subst.
  inversion Hw2 as [|? ? ? ? [Hs2 Hk] Hw3]; subst. clear Hw Hw1 Hw2 Hw3.
  unfold in_bounds in Hin. cbn [forallb2] in Hin.
  repeat (apply andb_prop in Hin as [?H Hin]).
  repeat match goal with
         | H : (_ <=? _) && (_ <? _) = true |- _ =>
             apply andb_prop in H as [?H ?H]
         | H : (_ <=? _) = true |- _ => apply Z.leb_le in H
         | H : (_ <? _) = true |- _ => apply Z.ltb_lt in H
         end.
  assert (Hc : 0 <= c) by lia.
  destruct (axis_slices i radius s0 Hr Hs0 Hi) as (A1 & A2 & _ & _ & _ & Al & Ah).
  destruct (axis_slices j radius s1 Hr Hs1 Hj) as (B1 & B2 & _ & _ & _ & Bl & Bh).
  destruct (axis_slices k radius s2 Hr Hs2 Hk) as (C1 & C2 & _ & _ & _ & Cl & Ch).
  cbv zeta in *.
  open_padded_crop Hidx Hs Hnp Ha.
  rewrite A1, A2, B1, B2, C1, C2. cbn [fst snd]. rewrite expandable_refl.
  eexists. eexists. split; [reflexivity|].
  cbn [elem inside unshift bcast_index zipWith shift fst snd shape].
  rewrite Al, Ah, Bl, Bh, Cl, Ch.
  destruct (axis_cell i radius s0 a Hr Hs0 Hi ltac:(lia)) as [Ea Fa].
  destruct (axis_cell j radius s1 b Hr Hs1 Hj ltac:(lia)) as [Eb Fb].
  destruct (axis_cell k radius s2 d Hr Hs2 Hk ltac:(lia)) as [Ed Fd].
  cbv zeta in *. unfold in_bounds. cbn [forallb2].
  rewrite <- Ea, <- Eb, <- Ed, !andb_true_r.
  destruct ((Z.max (radius - i) 0 <=? a) && _) eqn:Ta; cbn [andb];
    [|reflexivity].
  destruct ((Z.max (radius - j) 0 <=? b) && _) eqn:Tb; cbn [andb];
    [|reflexivity].
  destruct ((Z.max (radius - k) 0 <=? d) && _) eqn:Td; cbn [andb];
    [|reflexivity].
  destruct (Fa eq_refl) as [Fa1 Fa2]. destruct (Fb eq_refl) as [Fb1 Fb2].
  destruct (Fd eq_refl) as [Fd1 Fd2].
  rewrite Fa2, Fb2, Fd2. unfold sub_tensor. cbn [elem shift fst snd].
  rewrite Fa1, Fb1, Fd1.
  destruct (Z.eqb_spec c 1); [|reflexivity].
  replace ch with 0 by lia. reflexivity.
Qed.

(** X2.  The same for the two-dimensional crop. *)
Theorem crop_padded_values_2d {num : Numerics}
  (center : list scalar) (i j radius : Z) (value : scalar) (img : Image)
  (c s0 s1 ch a b : Z) :
  shape (data img) = [c; s0; s1] ->
  rmap py_int center = Ok [i; j] ->
  0 <= radius ->
  allocatable [c; 2 * radius + 1; 2 * radius + 1] = true ->
  window_near radius [i; j] [s0; s1] ->
  in_bounds [c; 2 * radius + 1; 2 * radius + 1] [ch; a; b] = true ->
  exists t padding,
    crop center radius true value 2 img = (Ok (Owned t, padding), img) /\
    elem t [ch; a; b]
    = if in_bounds [s0; s1] [i - radius + a; j - radius + b]
      then elem (data img) [ch; i - radius + a; j - radius + b]
      else fmul (Fin 1) value.
Proof.
  intros Hs Hidx Hr Ha Hw Hin.
  pose proof (allocatable_edge _ _ 0 _ Ha) as Hp.
  pose proof (numpy_bounds_near2 _ _ _ _ _ Hr Hp Hw) as Hnp.
  inversion Hw as [|? ? ? ? [Hs0 Hi] Hw1]; subst.
  inversion Hw1 as [|? ? ? ? [Hs1 Hj] Hw2]; subst. clear Hw Hw1 Hw2.
  unfold in_bounds in Hin. cbn [forallb2] in Hin.
  repeat (apply andb_prop in Hin as [?H Hin]).
  repeat match goal with
         | H : (_ <=? _) && (_ <? _) = true |- _ =>
             apply andb_prop in H as [?H ?H]
         | H : (_ <=? _) = true |- _ => apply Z.leb_le in H
         | H : (_ <? _) = true |- _ => apply Z.ltb_lt in H
         end.
  assert (Hc : 0 <= c) by lia.
  destruct (axis_slices i radius s0 Hr Hs0 Hi) as (A1 & A2 & _ & _ & _ & Al & Ah).
  destruct (axis_slices j radius s1 Hr Hs1 Hj) as (B1 & B2 & _ & _ & _ & Bl & Bh).
  cbv zeta in *.
  open_padded_crop Hidx Hs Hnp Ha.
  rewrite A1, A2, B1, B2. cbn [fst snd]. rewrite expandable_refl.
  eexists. eexists. split; [reflexivity|].
  cbn [elem inside unshift bcast_index zipWith shift fst snd shape].
  rewrite Al, Ah, Bl, Bh.
  destruct (axis_cell i radius s0 a Hr Hs0 Hi ltac:(lia)) as [Ea Fa].
  destruct (axis_cell j radius s1 b Hr Hs1 Hj ltac:(lia)) as [Eb Fb].
  cbv zeta in *. unfold in_bounds. cbn [forallb2].
  rewrite <- Ea, <- Eb, !andb_true_r.
  destruct ((Z.max (radius - i) 0 <=? a) && _) eqn:Ta; cbn [andb];
    [|reflexivity].
  destruct ((Z.max (radius - j) 0 <=? b) && _) eqn:Tb; cbn [andb];
    [|reflexivity].
  destruct (Fa eq_refl) as [Fa1 Fa2]. destruct (Fb eq_refl) as [Fb1 Fb2].
  rewrite Fa2, Fb2. unfold sub_tensor. cbn [elem shift fst snd].
  rewrite Fa1, Fb1.
  destruct (Z.eqb_spec c 1); [|reflexivity].
  replace ch with 0 by lia. reflexivity.
Qed.

(** Unfolds [crop] with [pad=False] on an image of known shape. *)
Ltac open_view_crop Hidx Hs Hnp :=
  unfold crop; cbn [Z.eqb Pos.eqb]; run_monad; rewrite Hidx, Hs;
  cbn [tl getitem nth_error]; split_extent; rewrite Hnp;
  unfold crop_extent2, crop_extent3, slice_region;
  cbn [length Nat.leb zipWith fst snd].

(** The view [crop] returns with [pad=False], for a window that meets or
    touches the volume. *)
Lemma crop_view_3d {num : Numerics} (center : list scalar)
  (i j k radius : Z) (value : scalar) (img : Image) (c s0 s1 s2 : Z) :
  shape (data img) = [c; s0; s1; s2] ->
  rmap py_int center = Ok [i; j; k] ->
  0 <= radius -> 2 * radius + 1 < 2 ^ 63 ->
  window_near radius [i; j; k] [s0; s1; s2] ->
  crop center radius false value 3 img
  = (Ok (View [(Z.max (i - radius) 0, snd (window_part i radius s0));
               (Z.max (j - radius) 0, snd (window_part j radius s1));
               (Z.max (k - radius) 0, snd (window_part k radius s2))],
         [Z.max (radius - i) 0; Z.max (i + radius - (s0 - 1)) 0;
          Z.max (radius - j) 0; Z.max (j + radius - (s1 - 1)) 0;
          Z.max (radius - k) 0; Z.max (k + radius - (s2 - 1)) 0]), img).
Proof.
  intros Hs Hidx Hr Hp Hw.
  pose proof (numpy_bounds_near3 _ _ _ _ _ _ _ Hr Hp Hw) as Hnp.
  inversion Hw as [|? ? ? ? [Hs0 Hi] Hw1]; subst.
  inversion Hw1 as [|? ? ? ? [Hs1 Hj] Hw2]; subst.
  inversion Hw2 as [|? ? ? ? [Hs2 Hk] Hw3]; subst. clear Hw Hw1 Hw2 Hw3.
  destruct (axis_slices i radius s0 Hr Hs0 Hi) as (A1 & _ & _ & _ & _ & Al & Ah).
  destruct (axis_slices j radius s1 Hr Hs1 Hj) as (B1 & _ & _ & _ & _ & Bl & Bh).
  destruct (axis_slices k radius s2 Hr Hs2 Hk) as (C1 & _ & _ & _ & _ & Cl & Ch).
  cbv zeta in *.
  open_view_crop Hidx Hs Hnp.
  rewrite A1, B1, C1, Al, Ah, Bl, Bh, Cl, Ch. unfold window_part. cbn [snd].
  do 3 f_equal. f_equal.
  f_equal; [f_equal; lia|]. f_equal; [f_equal; lia|]. f_equal. f_equal. lia.
Qed.


Lemma crop_view_2d {num : Numerics} (center : list scalar)
  (i j radius : Z) (value : scalar) (img : Image) (c s0 s1 : Z) :
  shape (data img) = [c; s0; s1] ->
  rmap py_int center = Ok [i; j] ->
  0 <= radius -> 2 * radius + 1 < 2 ^ 63 ->
  window_near radius [i; j] [s0; s1] ->
  crop center radius false value 2 img
  = (Ok (View [(Z.max (i - radius) 0, snd (window_part i radius s0));
               (Z.max (j - radius) 0, snd (window_part j radius s1))],
         [Z.max (radius - i) 0; Z.max (i + radius - (s0 - 1)) 0;
          Z.max (radius - j) 0; Z.max (j + radius - (s1 - 1)) 0]), img).
Proof.
  intros Hs Hidx Hr Hp Hw.
  pose proof (numpy_bounds_near2 _ _ _ _ _ Hr Hp Hw) as Hnp.
  inversion Hw as [|? ? ? ? [Hs0 Hi] Hw1]; subst.
  inversion Hw1 as [|? ? ? ? [Hs1 Hj] Hw2]; subst. clear Hw Hw1 Hw2.
  destruct (axis_slices i radius s0 Hr Hs0 Hi) as (A1 & _ & _ & _ & _ & Al & Ah).
  destruct (axis_slices j radius s1 Hr Hs1 Hj) as (B1 & _ & _ & _ & _ & Bl & Bh).
  cbv zeta in *.
  open_view_crop Hidx Hs Hnp.
  rewrite A1, B1, Al, Ah, Bl, Bh. unfold window_part. cbn [snd].
  do 3 f_equal. f_equal.
  f_equal; [f_equal; lia|]. f_equal. f_equal. lia.
Qed.


(** X3.  The unpadded patch of a three-dimensional crop, for a radius
    below 2^62 (where [2 * radius + 1] fits 64 bits) and a window that
    meets or touches the volume: the padding vector counts the cells of the
    window below index 0 and above the last index of each axis, the patch
    is a view whose edges are the numbers of window cells inside the
    volume, and its cell (a, b, d) is the cell of [data] at
    (max (i - radius) 0 + a, max (j - radius) 0 + b, max (k - radius) 0 + d). *)
Theorem crop_view_values_3d {num : Numerics}
  (center : list scalar) (i j k radius : Z) (value : scalar) (img : Image)
  (c s0 s1 s2 : Z) :
  shape (data img) = [c; s0; s1; s2] ->
  rmap py_int center = Ok [i; j; k] ->
  0 <= radius -> 2 * radius + 1 < 2 ^ 63 ->
  window_near radius [i; j; k] [s0; s1; s2] ->
  exists r,
    crop center radius false value 3 img
    = (Ok (View r,
           [Z.max (radius - i) 0; Z.max (i + radius - (s0 - 1)) 0;
            Z.max (radius - j) 0; Z.max (j + radius - (s1 - 1)) 0;
            Z.max (radius - k) 0; Z.max (k + radius - (s2 - 1)) 0]), img) /\
    shape (sub_tensor (data img) r)
    = [c; Z.min (i + radius) (s0 - 1) - Z.max (i - radius) 0 + 1;
          Z.min (j + radius) (s1 - 1) - Z.max (j - radius) 0 + 1;
          Z.min (k + radius) (s2 - 1) - Z.max (k - radius) 0 + 1] /\
    forall ch a b d,
      elem (sub_tensor (data img) r) [ch; a; b; d]
      = elem (data img)
          [ch; Z.max (i - radius) 0 + a; Z.max (j - radius) 0 + b;
           Z.max (k - radius) 0 + d].
Proof.
  intros Hs Hidx Hr Hp Hw. eexists. split.
  - exact (crop_view_3d center i j k radius value img c s0 s1 s2
             Hs Hidx Hr Hp Hw).
  - split; [|reflexivity].
    unfold sub_tensor. cbn [shape]. rewrite Hs. reflexivity.
Qed.

(** X4.  The same for the two-dimensional crop. *)
Theorem crop_view_values_2d {num : Numerics}
  (center : list scalar) (i j radius : Z) (value : scalar) (img : Image)
  (c s0 s1 : Z) :
  shape (data img) = [c; s0; s1] ->
  rmap py_int center = Ok [i; j] ->
  0 <= radius -> 2 * radius + 1 < 2 ^ 63 ->
  window_near radius [i; j] [s0; s1] ->
  exists r,
    crop center radius false value 2 img
    = (Ok (View r,
           [Z.max (radius - i) 0; Z.max (i + radius - (s0 - 1)) 0;
            Z.max (radius - j) 0; Z.max (j + radius - (s1 - 1)) 0]), img) /\
    shape (sub_tensor (data img) r)
    = [c; Z.min (i + radius) (s0 - 1) - Z.max (i - radius) 0 + 1;
          Z.min (j + radius) (s1 - 1) - Z.max (j - radius) 0 + 1] /\
    forall ch a b,
      elem (sub_tensor (data img) r) [ch; a; b]
      = elem (data img)
          [ch; Z.max (i - radius) 0 + a; Z.max (j - radius) 0 + b].
Proof.
  intros Hs Hidx Hr Hp Hw. eexists. split.
  - exact (crop_view_2d center i j radius value img c s0 s1 Hs Hidx Hr Hp Hw).
  - split; [|reflexivity].
    unfold sub_tensor. cbn [shape]. rewrite Hs. reflexivity.
Qed.

Lemma rmap_length {A B} (f : A -> result B) (l : list A) :
  forall l', rmap f l = Ok l' -> length l' = length l.
Proof.
  induction l as [|x l IH]; intros l'; cbn [rmap].
  - intros [= <-]. reflexivity.
  - destruct (f x); cbn [rbind]; [|discriminate].
    destruct (rmap f l); cbn [rbind]; [|discriminate].
    intros [= <-]. cbn [length]. f_equal. now apply IH.
Qed.

Lemma rmap_py_int_raises (l : list scalar) (e : exn) :
  rmap py_int l = Raise e -> e = ValueError \/ e = OverflowError.
Proof.
  induction l as [|x l IH]; cbn [rmap]; [discriminate|].
  destruct x; cbn [py_int rbind];
    try (intros [= <-]; auto).
  destruct (rmap py_int l); cbn [rbind]; [discriminate|].
  intros [= <-]. now apply IH.
Qed.

(** X5.  A center that does not have [n_dim] coordinates makes [crop]
    raise at the unpacking of its first line, [ValueError] (also for a NaN
    coordinate) or [OverflowError] (for an infinite one), with the image
    unchanged. *)
Theorem crop_center_of_wrong_length {num : Numerics}
  (center : list scalar) (radius : Z) (pad : bool) (value : scalar)
  (n_dim : Z) (img : Image) :
  n_dim = 2 \/ n_dim = 3 ->
  Z.of_nat (length center) <> n_dim ->
  exists e,
    crop center radius pad value n_dim img = (Raise e, img) /\
    (e = ValueError \/ e = OverflowError).
Proof.
  intros Hn Hlen. unfold crop. run_monad.
  destruct (rmap py_int center) as [l|e] eqn:Hm.
  - apply rmap_length in Hm. rewrite <- Hm in Hlen.
    destruct Hn as [-> | ->]; cbn [Z.eqb Pos.eqb].
    + destruct l as [|i [|j [|? ?]]]; cbn in Hlen; try lia; eauto.
    + destruct l as [|i [|j [|k [|? ?]]]]; cbn in Hlen; try lia; eauto.
  - apply rmap_py_int_raises in Hm.
    destruct Hn as [-> | ->]; cbn [Z.eqb Pos.eqb]; eauto.
Qed.

(** * Further properties of [draw_line_segment] *)

Section DrawOutcome.
Context {num : Numerics}.

(** X7.  A call of [draw_line_segment] that raises, at whatever line, has
    written nothing: the image is the one the call found. *)
Theorem draw_raise_leaves_image
  (segment : list scalar * list scalar) (width : scalar) (binary : bool)
  (channel n_dim : Z) (img : Image) (e : exn) :
  fst (draw_line_segment segment width binary channel n_dim img) = Raise e ->
  snd (draw_line_segment segment width binary channel n_dim img) = img.
Proof.
  destruct (draw_line_segment segment width binary channel n_dim img)
    as [res img'] eqn:H. cbn [fst snd]. intros ->.
  destruct (draw_outcome _ _ _ _ _ _ _ _ H) as [[_ ->]|[Hres _]];
    [reflexivity|discriminate].
Qed.

(** X8.  Whatever calls of [draw_line_segment] are made on an image, with
    whatever arguments and whether they return or raise, the shape of
    [data] and the spacing [dx] stay as they were. *)
Theorem calls_keep_shape_and_spacing (cs : list call) (img : Image) :
  shape (data (run_calls cs img)) = shape (data img) /\
  dx (run_calls cs img) = dx img.
Proof.
  split; [apply run_calls_shape|]. revert img. unfold run_calls.
  induction cs as [|c cs IH]; intros img; cbn [fold_left]; [reflexivity|].
  rewrite IH. unfold run_call. apply draw_spacing.
Qed.

(** X9.  A call of [draw_line_segment] with the channel index [channel]
    changes no value of any other channel: at every index whose channel is
    neither [channel] nor, for a negative index, [channel + c], the value
    after the call is the value before it. *)
Theorem draw_leaves_other_channels
  (segment : list scalar * list scalar) (width : scalar) (binary : bool)
  (channel n_dim : Z) (img : Image) (c : Z) (dims : list Z)
  (c0 : Z) (sp : list Z) :
  shape (data img) = c :: dims ->
  in_bounds (shape (data img)) (c0 :: sp) = true ->
  c0 <> channel -> c0 <> channel + c ->
  elem (data (snd (draw_line_segment segment width binary channel n_dim img)))
    (c0 :: sp)
  = elem (data img) (c0 :: sp).
Proof.
  intros Hs Hin H1 H2.
  destruct (draw_line_segment segment width binary channel n_dim img)
    as [res img'] eqn:H. cbn [snd].
  destruct (draw_outcome _ _ _ _ _ _ _ _ H)
    as [[_ ->]|(_ & r & N & c1 & dims1 & ch' & _ & _ & _ & Hs1 & Hn & _ & Hpt)];
    [reflexivity|].
  rewrite (Hpt _ Hin). unfold composited.
  rewrite Hs in Hs1. injection Hs1 as <- <-.
  destruct (norm_index_cases _ _ _ Hn) as [Hch _].
  destruct (Z.eqb_spec c0 ch') as [E|_]; [|reflexivity].
  exfalso. destruct Hch; subst; contradiction.
Qed.

(** X10.  After a call with [binary=True] every value of the buffer is the
    value the call found, or it is 0.0 or 1.0. *)
Theorem binary_draw_values
  (segment : list scalar * list scalar) (width : scalar)
  (channel n_dim : Z) (img : Image) (idx : list Z) :
  in_bounds (shape (data img)) idx = true ->
  let after :=
    snd (draw_line_segment segment width true channel n_dim img) in
  elem (data after) idx = elem (data img) idx \/
  elem (data after) idx = Fin 0 \/ elem (data after) idx = Fin 1.
Proof.
  intros Hin. cbv zeta.
  destruct (draw_line_segment segment width true channel n_dim img)
    as [res img'] eqn:H. cbn [snd].
  destruct (draw_outcome _ _ _ _ _ _ _ _ H)
    as [[_ ->]|(_ & r & N & c1 & dims1 & ch' & _ & _ & _ & _ & _ & _ & Hpt)];
    [now left|].
  rewrite (Hpt _ Hin). unfold composited.
  destruct idx as [|c0 sp]; [now left|].
  destruct ((c0 =? ch') && inside r sp); [|now left].
  right. unfold blend, binarize. destruct (fgt _ _); auto.
Qed.

(** X11.  With a channel index outside [-c, c - 1], for [c] channels, a call
    of [draw_line_segment] never returns: it raises and leaves the image as
    it was. *)
Theorem draw_channel_out_of_range
  (segment : list scalar * list scalar) (width : scalar) (binary : bool)
  (channel n_dim : Z) (img : Image) (c : Z) (dims : list Z) :
  shape (data img) = c :: dims ->
  channel < - c \/ c <= channel ->
  exists e,
    draw_line_segment segment width binary channel n_dim img = (Raise e, img).
Proof.
  intros Hs Hch.
  destruct (draw_line_segment segment width binary channel n_dim img)
    as [res img'] eqn:H.
  destruct (draw_outcome _ _ _ _ _ _ _ _ H)
    as [[[e ->] ->]|(_ & r & N & c1 & dims1 & ch' & _ & _ & _ & Hs1 & Hn & _)].
  - now exists e.
  - rewrite Hs in Hs1. injection Hs1 as <- <-.
    rewrite (norm_index_outside _ _ Hch) in Hn. discriminate.
Qed.

(** X6.  With [n_dim] other than 2 and 3, [crop] reaches its [return]
    with [patch] never assigned and raises [UnboundLocalError], and
    [draw_line_segment], which calls it, never returns and writes
    nothing. *)
Theorem unsupported_n_dim_raises
  (center : list scalar) (radius : Z) (pad : bool) (value : scalar)
  (segment : list scalar * list scalar) (width : scalar) (binary : bool)
  (channel n_dim : Z) (img : Image) :
  n_dim <> 2 -> n_dim <> 3 ->
  crop center radius pad value n_dim img = (Raise UnboundLocalError, img) /\
  exists e,
    draw_line_segment segment width binary channel n_dim img = (Raise e, img).
Proof.
  intros H2 H3.
  assert (Hc : forall center radius pad value,
             crop center radius pad value n_dim img
             = (Raise UnboundLocalError, img)).
  { intros. unfold crop.
    destruct (Z.eqb_spec n_dim 3); [contradiction|].
    destruct (Z.eqb_spec n_dim 2); [contradiction|]. reflexivity. }
  split; [apply Hc|].
  rewrite draw_unfold. unfold draw_plan.
  destruct (working_buffer segment width n_dim (dx img)) as [[[ctr R] X]|e];
    cbn [rbind fst snd]; [|now exists e].
  rewrite Hc. cbn [rbind fst]. now exists UnboundLocalError.
Qed.

End DrawOutcome.

(** * What a call that returns has written *)

Lemma range_head (n : Z) : 1 <= n -> exists l, range n = 0 :: l.
Proof.
  intros H. unfold range.
  destruct (Z.to_nat n) as [|m] eqn:E; [lia|].
  cbn [seq map]. eauto.
Qed.

Lemma indices_head (s : list Z) :
  Forall (fun n => 1 <= n) s -> exists p l, indices s = p :: l.
Proof.
  induction 1 as [|n s Hn _ (p & l & IH)]; cbn [indices]; [eauto|].
  destruct (range_head n Hn) as [t ->]. cbn [flat_map].
  rewrite IH. cbn [map app]. eauto.
Qed.

(** [amax] returns on a tensor without empty axis. *)
Lemma amax_returns (t : tensor) :
  Forall (fun n => 1 <= n) (shape t) -> exists v, amax t = Ok v.
Proof.
  intros H. unfold amax. destruct (indices_head _ H) as (p & l & ->).
  cbn [map]. eauto.
Qed.

(** The slice of one axis of the working buffer that [draw_line_segment]
    keeps, for a window that meets or touches the volume. *)
Lemma mask_slice (i radius n : Z) :
  0 <= radius -> 0 <= n -> - (radius + 1) <= i <= n + radius ->
  py_slice (2 * radius + 1)
    (Z.max (radius - i) 0, 2 * radius + 1 - Z.max (i + radius - (n - 1)) 0)
  = window_part i radius n.
Proof.
  intros Hr Hn Hi. unfold window_part.
  rewrite py_slice_plain by lia. f_equal. lia.
Qed.

Lemma axis_window (i radius n a : Z) :
  0 <= radius -> 0 <= a < n ->
  (Z.max (i - radius) 0 <=? a)
  && (a <? Z.max (i - radius) 0
           + (Z.min (i + radius) (n - 1) - Z.max (i - radius) 0 + 1))
  = (Z.abs (a - i) <=? radius).
Proof.
  intros Hr Ha.
  destruct (Z.leb_spec (Z.max (i - radius) 0) a);
  destruct (Z.leb_spec (Z.abs (a - i)) radius);
  repeat match goal with
         | |- context [?x <? ?y] => destruct (Z.ltb_spec x y)
         end; cbn [andb]; try reflexivity; lia.
Qed.

Section Window.
Context {num : Numerics}.

Lemma working_buffer_radius segment width dxs center R X :
  working_buffer segment width 3 dxs = Ok (center, R, X) ->
  0 <= R /\ 2 * R + 1 < 2 ^ 63.
Proof.
  unfold working_buffer.
  destruct (segment_geometry segment width 3) as [[[[ctr R'] st] en]|e];
    cbn [rbind]; [|discriminate].
  change (Z.to_nat 3) with 3%nat. cbn [repeat]. unfold alloc.
  destruct (allocatable _) eqn:Ha; cbn [rbind]; [|discriminate].
  destruct (index_put _ _ _); cbn [rbind]; [|discriminate].
  destruct (gaussian _ _); cbn [rbind]; [|discriminate].
  intros [= _ <- _]. apply allocatable_spec in Ha as [Ha _].
  pose proof (Forall_inv Ha) as Hp. cbn beta in Hp. lia.
Qed.

End Window.

Section WindowTheorems.
Context {num : Numerics}.

(** The plan of a three-dimensional call whose window meets the volume:
    the view is the part of the window that lies in the volume, the mask
    the matching part of the working buffer divided by its largest value. *)
Lemma draw_plan_3d
  (segment : list scalar * list scalar) (width : scalar) (img : Image)
  (center : list scalar) (R : Z) (X : tensor) (i j k c s0 s1 s2 : Z) :
  working_buffer segment width 3 (dx img) = Ok (center, R, X) ->
  shape X = [2 * R + 1; 2 * R + 1; 2 * R + 1] ->
  rmap py_int center = Ok [i; j; k] ->
  shape (data img) = [c; s0; s1; s2] ->
  window_meets R [i; j; k] [s0; s1; s2] ->
  let rX := [window_part i R s0; window_part j R s1; window_part k R s2] in
  let r := [(Z.max (i - R) 0, snd (window_part i R s0));
            (Z.max (j - R) 0, snd (window_part j R s1));
            (Z.max (k - R) 0, snd (window_part k R s2))] in
  exists top,
    amax (slice_tensor X rX) = Ok top /\
    draw_plan segment width 3 img
    = Ok (View r, tmap (fun v => fdiv v top) (slice_tensor X rX)) /\
    expandable (shape (slice_tensor X rX)) (region_shape r [s0; s1; s2])
    = true.
Proof.
  intros Hwb HX Hidx Hs Hw rX r.
  destruct (working_buffer_radius _ _ _ _ _ _ Hwb) as [HR HR63].
  inversion Hw as [|? ? ? ? [Hs0 Hi] Hw1]; subst.
  inversion Hw1 as [|? ? ? ? [Hs1 Hj] Hw2]; subst.
  inversion Hw2 as [|? ? ? ? [Hs2 Hk] Hw3]; subst. clear Hw1 Hw2 Hw3.
  assert (Hnear : window_near R [i; j; k] [s0; s1; s2])
    by (repeat constructor; lia).
  destruct (amax_returns (slice_tensor X rX)) as [top Htop].
  { unfold slice_tensor. cbn [shape]. rewrite HX. unfold rX, window_part.
    cbn [region_shape snd]. repeat constructor; lia. }
  exists top. split; [exact Htop|]. split.
  - unfold draw_plan. rewrite Hwb. cbn [rbind fst snd].
    rewrite (crop_view_3d center i j k R (Fin 0) img c s0 s1 s2 Hs Hidx HR
               HR63 Hnear).
    cbn [rbind fst snd]. unfold trimmed_mask. cbn [Z.eqb Pos.eqb].
    rewrite HX. cbn [getitem nth_error rbind]. unfold slice_region.
    cbn [length Nat.leb zipWith].
    rewrite !mask_slice by lia. fold rX. cbn [rbind]. rewrite Htop.
    reflexivity.
  - cbn [slice_tensor shape]. rewrite HX. unfold rX, r.
    cbn [region_shape snd]. apply expandable_refl.
Qed.

(** What merging that mask through that view leaves at one index. *)
Lemma composited_window (X : tensor) (top : scalar) (binary : bool)
  (d0 : tensor) (R i j k c s0 s1 s2 ch' c0 a b d : Z) :
  0 <= R -> shape X = [2 * R + 1; 2 * R + 1; 2 * R + 1] ->
  in_bounds [c; s0; s1; s2] [c0; a; b; d] = true ->
  composited
    (tmap (fun v => fdiv v top)
       (slice_tensor X [window_part i R s0; window_part j R s1;
                        window_part k R s2]))
    [(Z.max (i - R) 0, snd (window_part i R s0));
     (Z.max (j - R) 0, snd (window_part j R s1));
     (Z.max (k - R) 0, snd (window_part k R s2))] ch' binary d0 [c0; a; b; d]
  = if (c0 =? ch') && (Z.abs (a - i) <=? R) && (Z.abs (b - j) <=? R)
       && (Z.abs (d - k) <=? R)
    then blend binary
           (fdiv (elem X [a - i + R; b - j + R; d - k + R]) top)
           (elem d0 [c0; a; b; d])
    else elem d0 [c0; a; b; d].
Proof.
  intros HR HX Hin.
  unfold in_bounds in Hin. cbn [forallb2] in Hin.
  repeat (apply andb_prop in Hin as [?H Hin]).
  repeat match goal with
         | H : (_ <=? _) && (_ <? _) = true |- _ =>
             apply andb_prop in H as [?H ?H]
         | H : (_ <=? _) = true |- _ => apply Z.leb_le in H
         | H : (_ <? _) = true |- _ => apply Z.ltb_lt in H
         end.
  unfold composited. cbn [inside fst snd unshift].
  unfold window_part. cbn [snd].
  rewrite (axis_window i R s0 a HR) by lia.
  rewrite (axis_window j R s1 b HR) by lia.
  rewrite (axis_window k R s2 d HR) by lia.
  rewrite andb_true_r, !andb_assoc.
  destruct ((c0 =? ch') && (Z.abs (a - i) <=? R) && (Z.abs (b - j) <=? R)
            && (Z.abs (d - k) <=? R)) eqn:E; [|reflexivity].
  repeat (apply andb_prop in E as [E ?H]).
  repeat match goal with
         | H : (_ <=? _) = true |- _ => apply Z.leb_le in H
         end.
  f_equal. cbn [tmap slice_tensor shape elem]. rewrite HX.
  cbn [region_shape]. rewrite bcast_index_in_bounds.
  2: { unfold in_bounds, window_part. cbn [forallb2 snd].
       repeat (apply andb_true_intro; split); try reflexivity;
         (apply Z.leb_le || apply Z.ltb_lt); lia. }
  unfold window_part. cbn [shift fst snd]. do 2 f_equal.
  f_equal; [lia|]. f_equal; [lia|]. f_equal. lia.
Qed.

(** X12.  What a three-dimensional call writes.  Let the working buffer [X]
    have edge [2 * R + 1] on each axis after the blur, let (i, j, k) be the
    truncated midpoint of the segment, let the window of radius [R] around
    it meet the volume on every axis and let the channel index be in range.
    Then the call returns; [top] being the largest value of the part of [X]
    that falls in the volume, the voxel (a, b, d) of the channel within [R]
    of the midpoint on every axis receives the maximum of its old value and
    X[a - i + R, b - j + R, d - k + R] / top, thresholded when [binary] is
    set, and every other value stays as it was. *)
Theorem draw_writes_window
  (segment : list scalar * list scalar) (width : scalar) (binary : bool)
  (channel : Z) (img : Image) (center : list scalar) (R : Z) (X : tensor)
  (i j k c s0 s1 s2 ch' : Z) :
  working_buffer segment width 3 (dx img) = Ok (center, R, X) ->
  shape X = [2 * R + 1; 2 * R + 1; 2 * R + 1] ->
  rmap py_int center = Ok [i; j; k] ->
  shape (data img) = [c; s0; s1; s2] ->
  window_meets R [i; j; k] [s0; s1; s2] ->
  norm_index c channel = Ok ch' ->
  exists top img',
    amax (slice_tensor X [window_part i R s0; window_part j R s1;
                          window_part k R s2]) = Ok top /\
    draw_line_segment segment width binary channel 3 img = (Ok tt, img') /\
    dx img' = dx img /\ shape (data img') = shape (data img) /\
    forall c0 a b d,
      in_bounds [c; s0; s1; s2] [c0; a; b; d] = true ->
      elem (data img') [c0; a; b; d]
      = if (c0 =? ch') && (Z.abs (a - i) <=? R) && (Z.abs (b - j) <=? R)
           && (Z.abs (d - k) <=? R)
        then blend binary
               (fdiv (elem X [a - i + R; b - j + R; d - k + R]) top)
               (elem (data img) [c0; a; b; d])
        else elem (data img) [c0; a; b; d].
Proof.
  intros Hwb HX Hidx Hs Hw Hn.
  destruct (working_buffer_radius _ _ _ _ _ _ Hwb) as [HR HR63].
  destruct (draw_plan_3d segment width img center R X i j k c s0 s1 s2
              Hwb HX Hidx Hs Hw) as (top & Htop & Hplan & Hex).
  destruct (draw_line_segment segment width binary channel 3 img)
    as [res img'] eqn:H.
  pose proof (draw_succeeds segment width binary channel 3 img _ _ _ _ _
                Hplan Hs Hn Hex) as Hok.
  rewrite H in Hok. cbn [fst] in Hok. subst res.
  destruct (draw_outcome _ _ _ _ _ _ _ _ H)
    as [[[e He] _]|(_ & r & N & c1 & dims1 & ch1 & Hp & Hdx & Hsh & Hsd & Hn1
                    & _ & Hpt)]; [discriminate|].
  rewrite Hplan in Hp. injection Hp as <- <-.
  rewrite Hs in Hsd. injection Hsd as <- <-.
  rewrite Hn in Hn1. injection Hn1 as <-.
  exists top, img'. split; [exact Htop|]. split; [reflexivity|].
  split; [exact Hdx|]. split; [exact Hsh|].
  intros c0 a b d Hin. rewrite Hs in Hpt. rewrite (Hpt _ Hin).
  exact (composited_window X top binary (data img) R i j k c s0 s1 s2 ch'
           c0 a b d HR HX Hin).
Qed.

End WindowTheorems.

(** * Calls with [n_dim = 2] *)

Section Planar.
Context {num : Numerics}.

Lemma working_buffer_radius_2d segment width dxs center R X :
  working_buffer segment width 2 dxs = Ok (center, R, X) ->
  0 <= R /\ 2 * R + 1 < 2 ^ 63.
Proof.
  unfold working_buffer.
  destruct (segment_geometry segment width 2) as [[[[ctr R'] st] en]|e];
    cbn [rbind]; [|discriminate].
  change (Z.to_nat 2) with 2%nat. cbn [repeat]. unfold alloc.
  destruct (allocatable _) eqn:Ha; cbn [rbind]; [|discriminate].
  destruct (index_put _ _ _); cbn [rbind]; [|discriminate].
  destruct (gaussian _ _); cbn [rbind]; [|discriminate].
  intros [= _ <- _]. apply allocatable_spec in Ha as [Ha _].
  pose proof (Forall_inv Ha) as Hp. cbn beta in Hp. lia.
Qed.

Lemma draw_plan_2d
  (segment : list scalar * list scalar) (width : scalar) (img : Image)
  (center : list scalar) (R : Z) (X : tensor) (i j c s0 s1 : Z) :
  working_buffer segment width 2 (dx img) = Ok (center, R, X) ->
  shape X = [2 * R + 1; 2 * R + 1] ->
  rmap py_int center = Ok [i; j] ->
  shape (data img) = [c; s0; s1] ->
  window_meets R [i; j] [s0; s1] ->
  let rX := [window_part i R s0; window_part j R s1] in
  let r := [(Z.max (i - R) 0, snd (window_part i R s0));
            (Z.max (j - R) 0, snd (window_part j R s1))] in
  exists top,
    amax (slice_tensor X rX) = Ok top /\
    draw_plan segment width 2 img
    = Ok (View r, tmap (fun v => fdiv v top) (slice_tensor X rX)) /\
    expandable (shape (slice_tensor X rX)) (region_shape r [s0; s1]) = true.
Proof.
  intros Hwb HX Hidx Hs Hw rX r.
  destruct (working_buffer_radius_2d _ _ _ _ _ _ Hwb) as [HR HR63].
  inversion Hw as [|? ? ? ? [Hs0 Hi] Hw1]; subst.
  inversion Hw1 as [|? ? ? ? [Hs1 Hj] Hw2]; subst. clear Hw1 Hw2.
  assert (Hnear : window_near R [i; j] [s0; s1])
    by (repeat constructor; lia).
  destruct (amax_returns (slice_tensor X rX)) as [top Htop].
  { unfold slice_tensor. cbn [shape]. rewrite HX. unfold rX, window_part.
    cbn [region_shape snd]. repeat constructor; lia. }
  exists top. split; [exact Htop|]. split.
  - unfold draw_plan. rewrite Hwb. cbn [rbind fst snd].
    rewrite (crop_view_2d center i j R (Fin 0) img c s0 s1 Hs Hidx HR HR63
               Hnear).
    cbn [rbind fst snd]. unfold trimmed_mask. cbn [Z.eqb Pos.eqb].
    rewrite HX. cbn [getitem nth_error rbind]. unfold slice_region.
    cbn [length Nat.leb zipWith].
    rewrite !mask_slice by lia. fold rX. cbn [rbind]. rewrite Htop.
    reflexivity.
  - cbn [slice_tensor shape]. rewrite HX. unfold rX, r.
    cbn [region_shape snd]. apply expandable_refl.
Qed.

Lemma composited_window_2d (X : tensor) (top : scalar) (binary : bool)
  (d0 : tensor) (R i j c s0 s1 ch' c0 a b : Z) :
  0 <= R -> shape X = [2 * R + 1; 2 * R + 1] ->
  in_bounds [c; s0; s1] [c0; a; b] = true ->
  composited
    (tmap (fun v => fdiv v top)
       (slice_tensor X [window_part i R s0; window_part j R s1]))
    [(Z.max (i - R) 0, snd (window_part i R s0));
     (Z.max (j - R) 0, snd (window_part j R s1))] ch' binary d0 [c0; a; b]
  = if (c0 =? ch') && (Z.abs (a - i) <=? R) && (Z.abs (b - j) <=? R)
    then blend binary (fdiv (elem X [a - i + R; b - j + R]) top)
           (elem d0 [c0; a; b])
    else elem d0 [c0; a; b].
Proof.
  intros HR HX Hin.
  unfold in_bounds in Hin. cbn [forallb2] in Hin.
  repeat (apply andb_prop in Hin as [?H Hin]).
  repeat match goal with
         | H : (_ <=? _) && (_ <? _) = true |- _ =>
             apply andb_prop in H as [?H ?H]
         | H : (_ <=? _) = true |- _ => apply Z.leb_le in H
         | H : (_ <? _) = true |- _ => apply Z.ltb_lt in H
         end.
  unfold composited. cbn [inside fst snd unshift].
  unfold window_part. cbn [snd].
  rewrite (axis_window i R s0 a HR) by lia.
  rewrite (axis_window j R s1 b HR) by lia.
  rewrite andb_true_r, !andb_assoc.
  destruct ((c0 =? ch') && (Z.abs (a - i) <=? R) && (Z.abs (b - j) <=? R))
    eqn:E; [|reflexivity].
  repeat (apply andb_prop in E as [E ?H]).
  repeat match goal with
         | H : (_ <=? _) = true |- _ => apply Z.leb_le in H
         end.
  f_equal. cbn [tmap slice_tensor shape elem]. rewrite HX.
  cbn [region_shape]. rewrite bcast_index_in_bounds.
  2: { unfold in_bounds, window_part. cbn [forallb2 snd].
       repeat (apply andb_true_intro; split); try reflexivity;
         (apply Z.leb_le || apply Z.ltb_lt); lia. }
  unfold window_part. cbn [shift fst snd]. do 2 f_equal.
  f_equal; [lia|]. f_equal. lia.
Qed.

(** X13.  What a two-dimensional call writes, under the conditions of the
    three-dimensional one: the call returns, the pixel (a, b) of the
    channel within [R] of the truncated midpoint (i, j) on both axes
    receives the maximum of its old value and X[a - i + R, b - j + R] / top,
    thresholded when [binary] is set, and every other value stays as it
    was. *)
Theorem draw_writes_window_2d
  (segment : list scalar * list scalar) (width : scalar) (binary : bool)
  (channel : Z) (img : Image) (center : list scalar) (R : Z) (X : tensor)
  (i j c s0 s1 ch' : Z) :
  working_buffer segment width 2 (dx img) = Ok (center, R, X) ->
  shape X = [2 * R + 1; 2 * R + 1] ->
  rmap py_int center = Ok [i; j] ->
  shape (data img) = [c; s0; s1] ->
  window_meets R [i; j] [s0; s1] ->
  norm_index c channel = Ok ch' ->
  exists top img',
    amax (slice_tensor X [window_part i R s0; window_part j R s1]) = Ok top /\
    draw_line_segment segment width binary channel 2 img = (Ok tt, img') /\
    dx img' = dx img /\ shape (data img') = shape (data img) /\
    forall c0 a b,
      in_bounds [c; s0; s1] [c0; a; b] = true ->
      elem (data img') [c0; a; b]
      = if (c0 =? ch') && (Z.abs (a - i) <=? R) && (Z.abs (b - j) <=? R)
        then blend binary (fdiv (elem X [a - i + R; b - j + R]) top)
               (elem (data img) [c0; a; b])
        else elem (data img) [c0; a; b].
Proof.
  intros Hwb HX Hidx Hs Hw Hn.
  destruct (working_buffer_radius_2d _ _ _ _ _ _ Hwb) as [HR HR63].
  destruct (draw_plan_2d segment width img center R X i j c s0 s1
              Hwb HX Hidx Hs Hw) as (top & Htop & Hplan & Hex).
  destruct (draw_line_segment segment width binary channel 2 img)
    as [res img'] eqn:H.
  pose proof (draw_succeeds segment width binary channel 2 img _ _ _ _ _
                Hplan Hs Hn Hex) as Hok.
  rewrite H in Hok. cbn [fst] in Hok. subst res.
  destruct (draw_outcome _ _ _ _ _ _ _ _ H)
    as [[[e He] _]|(_ & r & N & c1 & dims1 & ch1 & Hp & Hdx & Hsh & Hsd & Hn1
                    & _ & Hpt)]; [discriminate|].
  rewrite Hplan in Hp. injection Hp as <- <-.
  rewrite Hs in Hsd. injection Hsd as <- <-.
  rewrite Hn in Hn1. injection Hn1 as <-.
  exists top, img'. split; [exact Htop|]. split; [reflexivity|].
  split; [exact Hdx|]. split; [exact Hsh|].
  intros c0 a b Hin. rewrite Hs in Hpt. rewrite (Hpt _ Hin).
  exact (composited_window_2d X top binary (data img) R i j c s0 s1 ch'
           c0 a b HR HX Hin).
Qed.

End Planar.

(** * Where a call can write *)

(** One axis, for any center: a cell farther than [radius] from the center
    index is outside the slice [crop] takes, unless the slice of the
    working buffer kept for that axis is empty. *)
Lemma axis_far (i radius n a : Z) :
  0 <= radius -> 0 <= a < n -> radius < Z.abs (a - i) ->
  let hi := if i + radius >? n - 1 then i + radius - (n - 1) else 0 in
  let lo := if i - radius <? 0 then radius - i else 0 in
  1 <= snd (py_slice (2 * radius + 1) (lo, 2 * radius + 1 - hi)) ->
  let s := py_slice n (i - (radius - lo), i + (radius - hi) + 1) in
  (fst s <=? a) && (a <? fst s + snd s) = false.
Proof.
  intros Hr Ha Hfar. cbv zeta. unfold py_slice. cbn [fst snd].
  destruct (Z.gtb_spec (i + radius) (n - 1));
  destruct (Z.ltb_spec (i - radius) 0);
  repeat match goal with
         | |- context [?x <? 0] => destruct (Z.ltb_spec x 0)
         end;
  intros Hm;
  apply andb_false_iff;
  match goal with
  | |- (?x <=? a) = false \/ (a <? ?y) = false =>
      destruct (Z.leb_spec x a); [right; apply Z.ltb_ge; lia|now left]
  end.
Qed.

Lemma flat_map_empty {A B} (l : list A) :
  flat_map (fun _ : A => @nil B) l = [].
Proof. induction l; cbn; auto. Qed.

(** A shape with an axis of length 0 or less has no index. *)
Lemma indices_empty (s : list Z) (n : Z) :
  In n s -> n <= 0 -> indices s = [].
Proof.
  induction s as [|m s IH]; intros Hin Hn; [contradiction|].
  cbn [indices]. destruct Hin as [->|Hin].
  - unfold range. replace (Z.to_nat n) with 0%nat by lia. reflexivity.
  - rewrite (IH Hin Hn). cbn [map]. apply flat_map_empty.
Qed.

Lemma amax_axes (t : tensor) (v : scalar) (n : Z) :
  amax t = Ok v -> In n (shape t) -> 1 <= n.
Proof.
  unfold amax. intros H Hin.
  destruct (Z.le_gt_cases n 0) as [Hn|Hn]; [|lia].
  rewrite (indices_empty _ n Hin Hn) in H. discriminate.
Qed.

Lemma crop_extent3_padding (i j k radius s0 s1 s2 : Z) :
  0 <= radius ->
  Forall (fun p => 0 <= p) (fst (crop_extent3 i j k radius s0 s1 s2)).
Proof.
  intros Hr. unfold crop_extent3. cbn [fst].
  repeat constructor; split_comparisons; lia.
Qed.

Section Locality.
Context {num : Numerics}.

(** When NumPy delivers slice bounds for a radius that fits, they are the
    exact ones. *)
Lemma numpy_bounds_exact (radius : Z) (idx padding : list Z)
  (bounds l : list (Z * Z)) :
  0 <= radius -> 2 * radius + 1 < 2 ^ 63 ->
  Forall (fun p => 0 <= p) padding ->
  numpy_bounds radius idx padding bounds = Ok l -> l = bounds.
Proof.
  unfold numpy_bounds. destruct (_ || _).
  - now intros _ _ _ [= <-].
  - apply numpy_overflow_exact.
Qed.

(** X14.  A three-dimensional call writes nowhere else than in the window
    of radius [R] around the truncated midpoint (i, j, k) of the segment,
    wherever that window lies: a voxel farther than [R] from the midpoint
    on some axis keeps its value.  The working buffer has edge
    [2 * R + 1] after the blur. *)
Theorem draw_keeps_values_outside_window
  (segment : list scalar * list scalar) (width : scalar) (binary : bool)
  (channel : Z) (img : Image) (center : list scalar) (R : Z) (X : tensor)
  (i j k c s0 s1 s2 c0 a b d : Z) :
  working_buffer segment width 3 (dx img) = Ok (center, R, X) ->
  shape X = [2 * R + 1; 2 * R + 1; 2 * R + 1] ->
  rmap py_int center = Ok [i; j; k] ->
  shape (data img) = [c; s0; s1; s2] ->
  in_bounds [c; s0; s1; s2] [c0; a; b; d] = true ->
  R < Z.abs (a - i) \/ R < Z.abs (b - j) \/ R < Z.abs (d - k) ->
  elem (data (snd (draw_line_segment segment width binary channel 3 img)))
    [c0; a; b; d]
  = elem (data img) [c0; a; b; d].
Proof.
  intros Hwb HX Hidx Hs Hin Hfar.
  destruct (working_buffer_radius _ _ _ _ _ _ Hwb) as [HR HR63].
  destruct (draw_line_segment segment width binary channel 3 img)
    as [res img'] eqn:H. cbn [snd].
  destruct (draw_outcome _ _ _ _ _ _ _ _ H)
    as [[_ ->]|(_ & r & N & c1 & dims1 & ch' & Hp & _ & _ & Hsd & _ & _ & Hpt)];
    [reflexivity|].
  rewrite Hs in Hpt. rewrite (Hpt _ Hin). clear Hpt H.
  unfold draw_plan in Hp. rewrite Hwb in Hp. cbn [rbind fst snd] in Hp.
  revert Hp.
  unfold crop; cbn [Z.eqb Pos.eqb]; run_monad; rewrite Hidx, Hs;
    cbn [tl getitem nth_error]; split_extent.
  destruct (numpy_bounds R [i; j; k] (fst (crop_extent3 i j k R s0 s1 s2))
              (snd (crop_extent3 i j k R s0 s1 s2))) as [l|e] eqn:Enp;
    [|discriminate].
  apply (numpy_bounds_exact _ _ _ _ _ HR HR63
           (crop_extent3_padding i j k R s0 s1 s2 HR)) in Enp. subst l.
  unfold crop_extent2, crop_extent3, slice_region.
  cbn [length Nat.leb zipWith fst snd rbind].
  unfold trimmed_mask. cbn [Z.eqb Pos.eqb]. rewrite HX.
  cbn [getitem nth_error rbind]. unfold slice_region.
  cbn [length Nat.leb zipWith rbind].
  match goal with
  | |- context [amax ?t] => destruct (amax t) as [top|e] eqn:Htop
  end; cbn [rbind]; [|discriminate].
  intros [= <- _].
  assert (Hax : forall n, In n (shape (slice_tensor X
                 [py_slice (2 * R + 1)
                    (if i - R <? 0 then R - i else 0,
                     2 * R + 1
                     - (if i + R >? s0 - 1 then i + R - (s0 - 1) else 0));
                  py_slice (2 * R + 1)
                    (if j - R <? 0 then R - j else 0,
                     2 * R + 1
                     - (if j + R >? s1 - 1 then j + R - (s1 - 1) else 0));
                  py_slice (2 * R + 1)
                    (if k - R <? 0 then R - k else 0,
                     2 * R + 1
                     - (if k + R >? s2 - 1 then k + R - (s2 - 1) else 0))]))
               -> 1 <= n)
    by (intros n; apply (amax_axes _ top n Htop)).
  cbn [slice_tensor shape] in Hax. rewrite HX in Hax.
  cbn [region_shape] in Hax.
  pose proof (Hax _ (or_introl eq_refl)) as M0.
  pose proof (Hax _ (or_intror (or_introl eq_refl))) as M1.
  pose proof (Hax _ (or_intror (or_intror (or_introl eq_refl)))) as M2.
  clear Hax Htop.
  unfold in_bounds in Hin. cbn [forallb2] in Hin.
  repeat (apply andb_prop in Hin as [?H Hin]).
  repeat match goal with
         | H : (_ <=? _) && (_ <? _) = true |- _ =>
             apply andb_prop in H as [?H ?H]
         | H : (_ <=? _) = true |- _ => apply Z.leb_le in H
         | H : (_ <? _) = true |- _ => apply Z.ltb_lt in H
         end.
  unfold composited. cbn [inside].
  destruct Hfar as [Hf|[Hf|Hf]].
  - rewrite (axis_far i R s0 a HR ltac:(lia) Hf M0).
    cbn [andb]. now rewrite andb_false_r.
  - rewrite (axis_far j R s1 b HR ltac:(lia) Hf M1).
    cbn [andb]. now rewrite andb_false_r, ?andb_false_l, ?andb_false_r.
  - rewrite (axis_far k R s2 d HR ltac:(lia) Hf M2).
    cbn [andb]. now rewrite ?andb_false_r.
Qed.

End Locality.

(** * A mask without any positive value *)

Lemma fold_fmax_zero (vs : list scalar) :
  forall v, is_zero v = true -> forallb is_zero vs = true ->
            is_zero (fold_left fmax vs v) = true.
Proof.
  induction vs as [|x vs IH]; intros v Hv Hvs; cbn [fold_left]; [exact Hv|].
  cbn [forallb] in Hvs. apply andb_prop in Hvs as [Hx Hvs].
  apply IH; [|exact Hvs].
  destruct v, x; try discriminate. cbn. now destruct (Qlt_b _ _).
Qed.

(** The largest value of a tensor of zeros is a zero. *)
Lemma amax_zero (t : tensor) (top : scalar) :
  forallb (fun idx => is_zero (elem t idx)) (indices (shape t)) = true ->
  amax t = Ok top -> is_zero top = true.
Proof.
  unfold amax. intros Hz.
  destruct (indices (shape t)) as [|p l]; cbn [map]; [discriminate|].
  cbn [forallb] in Hz. apply andb_prop in Hz as [Hp Hl].
  intros [= <-]. apply fold_fmax_zero; [exact Hp|].
  rewrite forallb_forall in *. intros x Hx.
  apply in_map_iff in Hx as (idx & <- & Hidx). now apply Hl.
Qed.

Lemma fdiv_zeros (a b : scalar) :
  is_zero a = true -> is_zero b = true -> fdiv a b = NaN.
Proof.
  destruct a, b; try discriminate. cbn. now intros -> ->.
Qed.

Section EmptyMask.
Context {num : Numerics}.

(** X15.  When the part of the working buffer that falls in the volume
    holds zeros only (the line and its blur lie in the part cut away), the
    division by the largest value is 0/0: a call without threshold
    writes NaN to every voxel of its window in the channel, and a call
    with threshold writes 0.0 there, whatever these voxels held. *)
Theorem draw_with_zero_mask
  (segment : list scalar * list scalar) (width : scalar) (binary : bool)
  (channel : Z) (img : Image) (center : list scalar) (R : Z) (X : tensor)
  (i j k c s0 s1 s2 ch' a b d : Z) :
  working_buffer segment width 3 (dx img) = Ok (center, R, X) ->
  shape X = [2 * R + 1; 2 * R + 1; 2 * R + 1] ->
  rmap py_int center = Ok [i; j; k] ->
  shape (data img) = [c; s0; s1; s2] ->
  window_meets R [i; j; k] [s0; s1; s2] ->
  norm_index c channel = Ok ch' ->
  forallb (fun idx => is_zero (elem X idx))
    (map (shift [window_part i R s0; window_part j R s1; window_part k R s2])
       (indices [snd (window_part i R s0); snd (window_part j R s1);
                 snd (window_part k R s2)])) = true ->
  in_bounds [c; s0; s1; s2] [ch'; a; b; d] = true ->
  Z.abs (a - i) <= R -> Z.abs (b - j) <= R -> Z.abs (d - k) <= R ->
  elem (data (snd (draw_line_segment segment width binary channel 3 img)))
    [ch'; a; b; d]
  = if binary then Fin 0 else NaN.
Proof.
  intros Hwb HX Hidx Hs Hw Hn Hz Hin Ha Hb Hd.
  destruct (working_buffer_radius _ _ _ _ _ _ Hwb) as [HR HR63].
  destruct (draw_plan_3d segment width img center R X i j k c s0 s1 s2
              Hwb HX Hidx Hs Hw) as (top & Htop & Hplan & Hex).
  set (rX := [window_part i R s0; window_part j R s1; window_part k R s2])
    in *.
  assert (Hz' : forallb (fun idx => is_zero (elem (slice_tensor X rX) idx))
                  (indices (shape (slice_tensor X rX))) = true).
  { cbn [slice_tensor shape elem]. rewrite HX. cbn [region_shape rX].
    rewrite forallb_forall in *. intros idx Hi. apply Hz.
    now apply in_map. }
  pose proof (amax_zero _ _ Hz' Htop) as Hzt.
  destruct (draw_line_segment segment width binary channel 3 img)
    as [res img'] eqn:H.
  pose proof (draw_succeeds segment width binary channel 3 img _ _ _ _ _
                Hplan Hs Hn Hex) as Hok.
  rewrite H in Hok. cbn [fst] in Hok. subst res. cbn [snd].
  destruct (draw_outcome _ _ _ _ _ _ _ _ H)
    as [[[e He] _]|(_ & r & N & c1 & dims1 & ch1 & Hp & _ & _ & Hsd & Hn1
                    & _ & Hpt)]; [discriminate|].
  rewrite Hplan in Hp. injection Hp as <- <-.
  rewrite Hs in Hsd. injection Hsd as <- <-.
  rewrite Hn in Hn1. injection Hn1 as <-.
  rewrite Hs in Hpt. rewrite (Hpt _ Hin). subst rX.
  etransitivity;
    [exact (composited_window X top binary (data img) R i j k c s0 s1 s2 ch'
              ch' a b d HR HX Hin)|].
  rewrite Z.eqb_refl.
  destruct (Z.leb_spec (Z.abs (a - i)) R); [|lia].
  destruct (Z.leb_spec (Z.abs (b - j)) R); [|lia].
  destruct (Z.leb_spec (Z.abs (d - k)) R); [|lia].
  cbn [andb].
  assert (Hx : is_zero (elem X [a - i + R; b - j + R; d - k + R]) = true).
  { rewrite forallb_forall in Hz. apply Hz.
    apply in_map_iff.
    exists [a - Z.max (i - R) 0; b - Z.max (j - R) 0; d - Z.max (k - R) 0].
    split.
    - unfold window_part. cbn [shift fst snd].
      f_equal; [lia|]. f_equal; [lia|]. f_equal. lia.
    - apply in_bounds_indices.
      unfold in_bounds in Hin |- *. cbn [forallb2] in Hin |- *.
      repeat (apply andb_prop in Hin as [?H Hin]).
      repeat match goal with
             | H : (_ <=? _) && (_ <? _) = true |- _ =>
                 apply andb_prop in H as [?H ?H]
             | H : (_ <=? _) = true |- _ => apply Z.leb_le in H
             | H : (_ <? _) = true |- _ => apply Z.ltb_lt in H
             end.
      unfold window_part. cbn [snd].
      repeat (apply andb_true_intro; split); try reflexivity;
        (apply Z.leb_le || apply Z.ltb_lt); lia. }
  rewrite (fdiv_zeros _ _ Hx Hzt). unfold blend. now destruct binary.
Qed.

End EmptyMask.

(** * The normalized mask *)

Lemma range_in (n i : Z) : In i (range n) -> 0 <= i < n.
Proof.
  unfold range. intros H. apply in_map_iff in H as (m & <- & Hm).
  apply in_seq in Hm. lia.
Qed.

Lemma indices_in_bounds (s : list Z) :
  forall idx, In idx (indices s) -> in_bounds s idx = true.
Proof.
  unfold in_bounds.
  induction s as [|n s IH]; intros idx H; cbn [indices] in H.
  - destruct H as [<-|[]]. reflexivity.
  - apply in_flat_map in H as (i & Hi & H).
    apply in_map_iff in H as (idx' & <- & H). apply range_in in Hi.
    cbn [forallb2]. rewrite (IH _ H), andb_true_r.
    apply andb_true_intro. split; [apply Z.leb_le|apply Z.ltb_lt]; lia.
Qed.

(** A cell of a slice is a cell of the tensor the slice is taken from. *)
Lemma slice_in_bounds (dims : list Z) :
  forall slices idx,
    in_bounds (region_shape (zipWith py_slice dims slices) dims) idx = true ->
    in_bounds dims (shift (zipWith py_slice dims slices) idx) = true.
Proof.
  unfold in_bounds.
  induction dims as [|n dims IH]; intros slices idx H.
  - exact H.
  - destruct slices as [|s slices]; [exact H|].
    destruct idx as [|i idx]; [discriminate|].
    cbn [zipWith region_shape shift forallb2] in H |- *.
    apply andb_prop in H as [Hi H]. rewrite (IH _ _ H), andb_true_r.
    apply andb_prop in Hi as [H0 H1].
    apply Z.leb_le in H0. apply Z.ltb_lt in H1.
    unfold py_slice in *. cbn [fst snd] in *.
    apply andb_true_intro. split; [apply Z.leb_le|apply Z.ltb_lt]; lia.
Qed.

Lemma is_nonneg_spec (a : scalar) :
  is_nonneg a = true <-> exists q, a = Fin q /\ (0 <= q)%Q.
Proof.
  split.
  - destruct a as [q| | |]; try discriminate. cbn. unfold Qneg_b.
    intros H. exists q. split; [reflexivity|].
    destruct (Z.ltb_spec (Qnum q) 0); [discriminate|].
    unfold Qle. cbn. lia.
  - intros (q & -> & Hq). cbn. unfold Qneg_b, Qle in *. cbn in Hq.
    destruct (Z.ltb_spec (Qnum q) 0); [lia|reflexivity].
Qed.

(** The largest of a list of finite values not below zero is one of them
    and is not below any of them. *)
Lemma fold_fmax_nonneg (vs : list scalar) :
  forall v, forallb is_nonneg (v :: vs) = true ->
    exists q, fold_left fmax vs v = Fin q /\ (0 <= q)%Q /\
              In (Fin q) (v :: vs) /\
              forall x, In (Fin x) (v :: vs) -> (x <= q)%Q.
Proof.
  induction vs as [|y vs IH]; intros v H; cbn [forallb] in H.
  - rewrite andb_true_r in H. apply is_nonneg_spec in H as (q & -> & Hq).
    exists q. cbn [fold_left]. repeat split; [exact Hq|now left|].
    intros x [[= ->]|[]]. apply Qle_refl.
  - apply andb_prop in H as [Hv H]. apply andb_prop in H as [Hy Hvs].
    apply is_nonneg_spec in Hv as (a & -> & Ha).
    apply is_nonneg_spec in Hy as (b & -> & Hb).
    cbn [fold_left]. cbn [fmax flt].
    destruct (Qlt_b b a) eqn:E.
    + apply Qlt_b_true in E.
      destruct (IH (Fin a)) as (q & Hq & Hq0 & Hin & Hmax).
      { cbn [forallb]. rewrite Hvs, andb_true_r.
        apply is_nonneg_spec. eauto. }
      exists q. split; [exact Hq|]. split; [exact Hq0|]. split.
      * destruct Hin as [Hin|Hin]; [now left|right; now right].
      * intros x [[= ->]|[[= ->]|Hx]].
        -- apply Hmax. now left.
        -- apply Qle_trans with a; [now apply Qlt_le_weak|].
           apply Hmax. now left.
        -- apply Hmax. now right.
    + apply Qlt_b_false in E.
      destruct (IH (Fin b)) as (q & Hq & Hq0 & Hin & Hmax).
      { cbn [forallb]. rewrite Hvs, andb_true_r.
        apply is_nonneg_spec. eauto. }
      exists q. split; [exact Hq|]. split; [exact Hq0|]. split.
      * destruct Hin as [Hin|Hin]; right; [now left|now right].
      * intros x [[= ->]|[[= ->]|Hx]].
        -- apply Qle_trans with b; [exact E|]. apply Hmax. now left.
        -- apply Hmax. now left.
        -- apply Hmax. now right.
Qed.

Lemma Qnum_squeezed (x q : Q) :
  (0 <= x)%Q -> (x <= q)%Q -> Qnum q = 0 -> Qnum x = 0.
Proof.
  unfold Qle. cbn. intros H0 H1 Hq. rewrite Hq in H1.
  pose proof (Pos2Z.is_pos (Qden q)). nia.
Qed.

Lemma Qdiv_unit (x q : Q) :
  (0 <= x)%Q -> (x <= q)%Q -> Qnum q <> 0 ->
  (0 <= x / q <= 1)%Q /\ (q / q == 1)%Q.
Proof.
  intros H0 H1 Hq.
  assert (Hpos : (0 < q)%Q).
  { assert (Hq0 : (0 <= q)%Q) by (eapply Qle_trans; eauto).
    unfold Qle, Qlt in *. cbn in *. lia. }
  split; [split|].
  - apply Qle_shift_div_l; [exact Hpos|]. now rewrite Qmult_0_l.
  - apply Qle_shift_div_r; [exact Hpos|]. now rewrite Qmult_1_l.
  - apply Qmult_inv_r. intros E. rewrite E in Hpos.
    now apply (Qlt_irrefl 0).
Qed.

Section Normalized.
Context {num : Numerics}.

(** What [trimmed_mask] returns: a slice of the working buffer divided by
    its largest value. *)
Lemma trimmed_mask_form (n_dim : Z) (X : tensor) (padding : list Z)
  (N : tensor) :
  trimmed_mask n_dim X padding = Ok N ->
  exists slices top,
    amax (slice_tensor X (zipWith py_slice (shape X) slices)) = Ok top /\
    N = tmap (fun v => fdiv v top)
          (slice_tensor X (zipWith py_slice (shape X) slices)).
Proof.
  unfold trimmed_mask, slice_region.
  destruct (n_dim =? 2); [|destruct (n_dim =? 3); [|discriminate]];
    repeat match goal with
           | |- context [rbind (getitem ?l ?n) _] =>
               destruct (getitem l n); cbn [rbind]; [|discriminate]
           end;
    match goal with
    | |- context [(?a <=? ?b)%nat] => destruct (a <=? b)%nat
    end; cbn [rbind]; try discriminate;
    match goal with
    | |- context [amax ?t] => destruct (amax t) as [top|e] eqn:Htop
    end; cbn [rbind]; try discriminate;
    intros [= <-]; eauto.
Qed.

(** X16.  The mask [draw_line_segment] merges into the volume is
    normalized: when the working buffer holds finite values not below
    zero, either every value of the mask is NaN (the kept part of the
    buffer holds zeros only), or every value of the mask lies in [0, 1] and
    the value 1 is reached. *)
Theorem trimmed_mask_normalized (n_dim : Z) (X : tensor) (padding : list Z)
  (N : tensor) :
  trimmed_mask n_dim X padding = Ok N ->
  forallb (fun idx => is_nonneg (elem X idx)) (indices (shape X)) = true ->
  (forall idx, in_bounds (shape N) idx = true -> elem N idx = NaN) \/
  ((forall idx, in_bounds (shape N) idx = true ->
      exists q, elem N idx = Fin q /\ (0 <= q <= 1)%Q) /\
   exists idx q,
     in_bounds (shape N) idx = true /\ elem N idx = Fin q /\ (q == 1)%Q).
Proof.
  intros HN HX.
  destruct (trimmed_mask_form _ _ _ _ HN) as (slices & top & Htop & ->).
  set (T := slice_tensor X (zipWith py_slice (shape X) slices)) in *.
  cbn [tmap shape elem].
  assert (HT : forall idx, in_bounds (shape T) idx = true ->
                           is_nonneg (elem T idx) = true).
  { intros idx Hin. unfold T in *. cbn [slice_tensor shape elem] in *.
    rewrite forallb_forall in HX. apply HX. apply in_bounds_indices.
    now apply slice_in_bounds. }
  unfold amax in Htop.
  destruct (map (elem T) (indices (shape T))) as [|v vs] eqn:Hl;
    [discriminate|].
  injection Htop as Htop.
  assert (Hall : forallb is_nonneg (v :: vs) = true).
  { rewrite <- Hl. apply forallb_forall. intros x Hx.
    apply in_map_iff in Hx as (idx & <- & Hidx).
    apply HT. now apply indices_in_bounds. }
  destruct (fold_fmax_nonneg vs v Hall) as (q & Hq & Hq0 & Hin & Hmax).
  rewrite Hq in Htop. subst top.
  assert (Hval : forall idx, in_bounds (shape T) idx = true ->
                   exists x, elem T idx = Fin x /\ (0 <= x)%Q /\ (x <= q)%Q).
  { intros idx Hidx.
    destruct (proj1 (is_nonneg_spec _) (HT idx Hidx)) as (x & Hx & Hx0).
    exists x. split; [exact Hx|]. split; [exact Hx0|].
    apply Hmax. rewrite <- Hl, <- Hx. apply in_map.
    now apply in_bounds_indices. }
  destruct (Z.eq_dec (Qnum q) 0) as [Hz|Hnz].
  - left. intros idx Hidx.
    destruct (Hval idx Hidx) as (x & -> & Hx0 & Hxq).
    apply fdiv_zero_by_zero; [|exact Hz].
    exact (Qnum_squeezed x q Hx0 Hxq Hz).
  - right. split.
    + intros idx Hidx.
      destruct (Hval idx Hidx) as (x & -> & Hx0 & Hxq).
      exists (x / q)%Q. split.
      * cbn [fdiv]. unfold Qzero_b.
        destruct (Z.eqb_spec (Qnum q) 0); [contradiction|reflexivity].
      * apply (Qdiv_unit x q Hx0 Hxq Hnz).
    + rewrite <- Hl in Hin. apply in_map_iff in Hin as (idx & Hidx & Hi).
      exists idx, (q / q)%Q. split; [now apply indices_in_bounds|].
      split.
      * rewrite Hidx. cbn [fdiv]. unfold Qzero_b.
        destruct (Z.eqb_spec (Qnum q) 0); [contradiction|reflexivity].
      * apply (Qdiv_unit q q Hq0 (Qle_refl q) Hnz).
Qed.

End Normalized.

(** * The order of two calls *)

Lemma feq_refl (a : scalar) : feq a a.
Proof. destruct a; cbn; [reflexivity|exact I..]. Qed.

(** Merging two masks by maximum gives numerically the same value in either
    order. *)
Lemma fmax_swap (a b c : scalar) :
  feq (fmax a (fmax b c)) (fmax b (fmax a c)).
Proof.
  destruct a as [x| | |], b as [y| | |], c as [z| | |]; cbn;
    repeat match goal with
           | |- context [Qlt_b ?u ?v] => destruct (Qlt_b u v) eqn:?; cbn
           end;
    try exact I; try reflexivity;
    repeat match goal with
           | H : Qlt_b _ _ = true |- _ => apply Qlt_b_true in H
           | H : Qlt_b _ _ = false |- _ => apply Qlt_b_false in H
           end; lra.
Qed.

Section Order.
Context {num : Numerics}.

(** Whether a call returns depends on the image through its spacing and
    its shape only. *)
Lemma draw_returns_shape_only segment width binary channel n_dim
  (a b : Image) :
  dx a = dx b -> shape (data a) = shape (data b) ->
  fst (draw_line_segment segment width binary channel n_dim a) = Ok tt ->
  fst (draw_line_segment segment width binary channel n_dim b) = Ok tt.
Proof.
  intros Hdx Hsh.
  destruct (draw_line_segment segment width binary channel n_dim a)
    as [res a'] eqn:H. cbn [fst]. intros ->.
  destruct (draw_outcome _ _ _ _ _ _ _ _ H)
    as [[[e He] _]|(_ & r & N & c & dims & ch' & Hp & _ & _ & Hs & Hn & Hx & _)];
    [discriminate|].
  rewrite (draw_plan_shape_only _ _ _ a b Hdx Hsh) in Hp. rewrite Hsh in Hs.
  exact (draw_succeeds _ _ binary _ _ _ _ _ _ _ _ Hp Hs Hn Hx).
Qed.

Lemma run_call_frame (c : call) (img : Image) :
  dx (run_call c img) = dx img /\
  shape (data (run_call c img)) = shape (data img).
Proof. unfold run_call. split; [apply draw_spacing|apply draw_shape]. Qed.

(** A call either leaves the image as it is, and does so on every image of
    that spacing and shape, or merges one mask, the same on every such
    image. *)
Lemma run_call_cases (c : call) (img : Image) :
  (forall other, dx other = dx img -> shape (data other) = shape (data img) ->
                 run_call c other = other) \/
  exists r N ch',
    forall other, dx other = dx img -> shape (data other) = shape (data img) ->
      forall idx, in_bounds (shape (data img)) idx = true ->
        elem (data (run_call c other)) idx
        = composited N r ch' (call_binary c) (data other) idx.
Proof.
  unfold run_call.
  destruct (draw_line_segment (call_segment c) (call_width c) (call_binary c)
              (call_channel c) (call_n_dim c) img) as [res img'] eqn:H.
  destruct (draw_outcome _ _ _ _ _ _ _ _ H)
    as [[[e ->] _]|(-> & r & N & c0 & dims & ch' & Hp & _ & _ & Hs & Hn & Hx & _)].
  - left. intros other Hdx Hsh.
    destruct (draw_line_segment (call_segment c) (call_width c)
                (call_binary c) (call_channel c) (call_n_dim c) other)
      as [res1 other'] eqn:H1. cbn [snd].
    destruct (draw_outcome _ _ _ _ _ _ _ _ H1) as [[_ ->]|[-> _]];
      [reflexivity|].
    pose proof (draw_returns_shape_only (call_segment c) (call_width c)
                  (call_binary c) (call_channel c) (call_n_dim c) other img
                  Hdx Hsh) as Hr.
    rewrite H1, H in Hr. cbn [fst] in Hr. specialize (Hr eq_refl).
    discriminate.
  - right. exists r, N, ch'. intros other Hdx Hsh idx Hin.
    destruct (draw_line_segment (call_segment c) (call_width c)
                (call_binary c) (call_channel c) (call_n_dim c) other)
      as [res1 other'] eqn:H1. cbn [snd].
    pose proof (draw_returns_shape_only (call_segment c) (call_width c)
                  (call_binary c) (call_channel c) (call_n_dim c) img other
                  (eq_sym Hdx) (eq_sym Hsh)) as Hr.
    rewrite H1, H in Hr. cbn [fst] in Hr. specialize (Hr eq_refl).
    subst res1.
    destruct (draw_outcome _ _ _ _ _ _ _ _ H1)
      as [[[e He] _]|(_ & r1 & N1 & c1 & dims1 & ch1 & Hp1 & _ & _ & Hs1 & Hn1
                      & _ & Hpt)]; [discriminate|].
    rewrite (draw_plan_shape_only _ _ _ other img Hdx Hsh), Hp in Hp1.
    injection Hp1 as <- <-.
    rewrite Hsh, Hs in Hs1. injection Hs1 as <- <-.
    rewrite Hn in Hn1. injection Hn1 as <-.
    apply Hpt. now rewrite Hsh.
Qed.

(** X17.  Two calls of [draw_line_segment] without threshold can be made
    in either order: the two buffers have the same spacing, the same shape
    and numerically the same value at every index, whatever the segments,
    widths and channels, and whether the calls return or raise. *)
Theorem draws_without_threshold_commute (c1 c2 : call) (img : Image) :
  call_binary c1 = false -> call_binary c2 = false ->
  same_values (run_call c2 (run_call c1 img))
              (run_call c1 (run_call c2 img)).
Proof.
  intros Hb1 Hb2.
  destruct (run_call_frame c1 img) as [Hdx1 Hsh1].
  destruct (run_call_frame c2 img) as [Hdx2 Hsh2].
  destruct (run_call_frame c2 (run_call c1 img)) as [Hdx3 Hsh3].
  destruct (run_call_frame c1 (run_call c2 img)) as [Hdx4 Hsh4].
  split; [congruence|]. split; [congruence|].
  intros idx Hin. rewrite Hsh3, Hsh1 in Hin.
  destruct (run_call_cases c1 img) as [F1|(r1 & N1 & ch1 & S1)];
  destruct (run_call_cases c2 img) as [F2|(r2 & N2 & ch2 & S2)].
  - rewrite (F1 img eq_refl eq_refl), (F2 img eq_refl eq_refl).
    rewrite (F1 img eq_refl eq_refl). apply feq_refl.
  - rewrite (F1 img eq_refl eq_refl), (F1 _ Hdx2 Hsh2). apply feq_refl.
  - rewrite (F2 img eq_refl eq_refl), (F2 _ Hdx1 Hsh1). apply feq_refl.
  - rewrite (S2 _ Hdx1 Hsh1 idx Hin), (S1 _ Hdx2 Hsh2 idx Hin).
    rewrite Hb1, Hb2. unfold composited.
    destruct idx as [|c0 sp].
    + rewrite (S1 img eq_refl eq_refl [] Hin), (S2 img eq_refl eq_refl [] Hin).
      apply feq_refl.
    + rewrite (S1 img eq_refl eq_refl _ Hin), (S2 img eq_refl eq_refl _ Hin).
      rewrite Hb1, Hb2. unfold composited, blend.
      destruct ((c0 =? ch1) && inside r1 sp), ((c0 =? ch2) && inside r2 sp);
        try apply feq_refl.
      apply fmax_swap.
Qed.

End Order.

(** * Instances of the further properties, with the reference numerics *)

Lemma crop_padded_values_3d_witness :
  exists t padding,
    crop (num := reference_numerics) [Fin 1; Fin (59 # 2); Fin 15] 3 true
      (Fin 7) 3 (graded_image [3; 30; 30; 30] [1; 1; 1])
    = (Ok (Owned t, padding), graded_image [3; 30; 30; 30] [1; 1; 1]) /\
    elem t [1; 3; 2; 4]
    = if in_bounds [30; 30; 30] [1 - 3 + 3; 29 - 3 + 2; 15 - 3 + 4]
      then elem (data (graded_image [3; 30; 30; 30] [1; 1; 1]))
             [1; 1 - 3 + 3; 29 - 3 + 2; 15 - 3 + 4]
      else fmul (Fin 1) (Fin 7).
Proof.
  apply (crop_padded_values_3d (num := reference_numerics)
           [Fin 1; Fin (59 # 2); Fin 15] 1 29 15 3 (Fin 7)
           (graded_image [3; 30; 30; 30] [1; 1; 1]) 3 30 30 30 1 3 2 4).
  - reflexivity.
  - reflexivity.
  - lia.
  - vm_compute. reflexivity.
  - repeat constructor; lia.
  - reflexivity.
Defined.

Lemma crop_padded_values_2d_witness :
  exists t padding,
    crop (num := reference_numerics) [Fin 1; Fin (59 # 2)] 3 true (Fin 7) 2
      (graded_image [3; 30; 30] [1; 1])
    = (Ok (Owned t, padding), graded_image [3; 30; 30] [1; 1]) /\
    elem t [1; 3; 2]
    = if in_bounds [30; 30] [1 - 3 + 3; 29 - 3 + 2]
      then elem (data (graded_image [3; 30; 30] [1; 1]))
             [1; 1 - 3 + 3; 29 - 3 + 2]
      else fmul (Fin 1) (Fin 7).
Proof.
  apply (crop_padded_values_2d (num := reference_numerics)
           [Fin 1; Fin (59 # 2)] 1 29 3 (Fin 7)
           (graded_image [3; 30; 30] [1; 1]) 3 30 30 1 3 2).
  - reflexivity.
  - reflexivity.
  - lia.
  - vm_compute. reflexivity.
  - repeat constructor; lia.
  - reflexivity.
Defined.

Lemma crop_view_values_3d_witness :
  exists r,
    crop (num := reference_numerics) [Fin 1; Fin (59 # 2); Fin 15] 3 false
      (Fin 0) 3
      (uniform_image [3; 30; 30; 30] (Fin 0) [1; 1; 1])
    = (Ok (View r,
           [Z.max (3 - 1) 0; Z.max (1 + 3 - (30 - 1)) 0;
            Z.max (3 - 29) 0; Z.max (29 + 3 - (30 - 1)) 0;
            Z.max (3 - 15) 0; Z.max (15 + 3 - (30 - 1)) 0]),
       uniform_image [3; 30; 30; 30] (Fin 0) [1; 1; 1]) /\
    shape (sub_tensor
             (data (uniform_image [3; 30; 30; 30] (Fin 0) [1; 1; 1])) r)
    = [3; Z.min (1 + 3) (30 - 1) - Z.max (1 - 3) 0 + 1;
          Z.min (29 + 3) (30 - 1) - Z.max (29 - 3) 0 + 1;
          Z.min (15 + 3) (30 - 1) - Z.max (15 - 3) 0 + 1] /\
    forall ch a b d,
      elem (sub_tensor
              (data (uniform_image [3; 30; 30; 30] (Fin 0) [1; 1; 1])) r)
        [ch; a; b; d]
      = elem (data (uniform_image [3; 30; 30; 30] (Fin 0) [1; 1; 1]))
          [ch; Z.max (1 - 3) 0 + a; Z.max (29 - 3) 0 + b;
           Z.max (15 - 3) 0 + d].
Proof.
  apply (crop_view_values_3d (num := reference_numerics)
           [Fin 1; Fin (59 # 2); Fin 15] 1 29 15 3 (Fin 0)
           (uniform_image [3; 30; 30; 30] (Fin 0) [1; 1; 1]) 3 30 30 30).
  - reflexivity.
  - reflexivity.
  - lia.
  - reflexivity.
  - repeat constructor; lia.
Defined.

Lemma crop_view_values_2d_witness :
  exists r,
    crop (num := reference_numerics) [Fin 1; Fin (59 # 2)] 3 false (Fin 0) 2
      (uniform_image [3; 30; 30] (Fin 0) [1; 1])
    = (Ok (View r,
           [Z.max (3 - 1) 0; Z.max (1 + 3 - (30 - 1)) 0;
            Z.max (3 - 29) 0; Z.max (29 + 3 - (30 - 1)) 0]),
       uniform_image [3; 30; 30] (Fin 0) [1; 1]) /\
    shape (sub_tensor (data (uniform_image [3; 30; 30] (Fin 0) [1; 1])) r)
    = [3; Z.min (1 + 3) (30 - 1) - Z.max (1 - 3) 0 + 1;
          Z.min (29 + 3) (30 - 1) - Z.max (29 - 3) 0 + 1] /\
    forall ch a b,
      elem (sub_tensor (data (uniform_image [3; 30; 30] (Fin 0) [1; 1])) r)
        [ch; a; b]
      = elem (data (uniform_image [3; 30; 30] (Fin 0) [1; 1]))
          [ch; Z.max (1 - 3) 0 + a; Z.max (29 - 3) 0 + b].
Proof.
  apply (crop_view_values_2d (num := reference_numerics)
           [Fin 1; Fin (59 # 2)] 1 29 3 (Fin 0)
           (uniform_image [3; 30; 30] (Fin 0) [1; 1]) 3 30 30).
  - reflexivity.
  - reflexivity.
  - lia.
  - reflexivity.
  - repeat constructor; lia.
Defined.

Lemma crop_center_of_wrong_length_witness :
  exists e,
    crop (num := reference_numerics) (pt [10; 10]) 3 true (Fin 0) 3
      (uniform_image [3; 30; 30; 30] (Fin 0) [1; 1; 1])
    = (Raise e, uniform_image [3; 30; 30; 30] (Fin 0) [1; 1; 1]) /\
    (e = ValueError \/ e = OverflowError).
Proof.
  apply (crop_center_of_wrong_length (num := reference_numerics)
           (pt [10; 10]) 3 true (Fin 0) 3
           (uniform_image [3; 30; 30; 30] (Fin 0) [1; 1; 1])).
  - right. reflexivity.
  - cbn. lia.
Defined.

Lemma unsupported_n_dim_raises_witness :
  crop (num := reference_numerics) (pt [10; 10; 10; 10]) 3 true (Fin 0) 4
    (uniform_image [3; 9; 9; 9; 9] (Fin 0) [1; 1; 1; 1])
  = (Raise UnboundLocalError,
     uniform_image [3; 9; 9; 9; 9] (Fin 0) [1; 1; 1; 1]) /\
  exists e,
    draw_line_segment (num := reference_numerics)
      (pt [4; 4; 4; 3], pt [4; 4; 4; 5]) (Fin 1) false 0 4
      (uniform_image [3; 9; 9; 9; 9] (Fin 0) [1; 1; 1; 1])
    = (Raise e, uniform_image [3; 9; 9; 9; 9] (Fin 0) [1; 1; 1; 1]).
Proof.
  apply (unsupported_n_dim_raises (num := reference_numerics)
           (pt [10; 10; 10; 10]) 3 true (Fin 0)
           (pt [4; 4; 4; 3], pt [4; 4; 4; 5]) (Fin 1) false 0 4
           (uniform_image [3; 9; 9; 9; 9] (Fin 0) [1; 1; 1; 1])).
  - lia.
  - lia.
Defined.

Lemma draw_raise_leaves_image_witness :
  snd (draw_line_segment (num := reference_numerics)
         (pt [10; 10; 5], pt [10; 10; 15]) (Fin 1) true 0 3
         (uniform_image [3; 21; 21; 21] (Fin (1 # 2)) [1; 1; 1]))
  = uniform_image [3; 21; 21; 21] (Fin (1 # 2)) [1; 1; 1].
Proof.
  apply (draw_raise_leaves_image (num := reference_numerics)
           (pt [10; 10; 5], pt [10; 10; 15]) (Fin 1) true 0 3
           (uniform_image [3; 21; 21; 21] (Fin (1 # 2)) [1; 1; 1])
           IndexError).
  vm_compute. reflexivity.
Defined.

Lemma draw_leaves_other_channels_witness :
  elem (data (snd (draw_line_segment (num := reference_numerics)
                     short_segment (Fin 1) true (-2) 3
                     (uniform_image [3; 21; 21; 21] (Fin (1 # 2)) [1; 1; 1]))))
    [2; 10; 10; 11]
  = elem (data (uniform_image [3; 21; 21; 21] (Fin (1 # 2)) [1; 1; 1]))
      [2; 10; 10; 11].
Proof.
  apply (draw_leaves_other_channels (num := reference_numerics)
           short_segment (Fin 1) true (-2) 3
           (uniform_image [3; 21; 21; 21] (Fin (1 # 2)) [1; 1; 1])
           3 [21; 21; 21] 2 [10; 10; 11]).
  - reflexivity.
  - reflexivity.
  - lia.
  - lia.
Defined.

Lemma binary_draw_values_witness :
  let after :=
    snd (draw_line_segment (num := reference_numerics)
           short_segment (Fin 1) true 0 3
           (uniform_image [3; 21; 21; 21] (Fin (1 # 2)) [1; 1; 1])) in
  elem (data after) [0; 10; 10; 11]
  = elem (data (uniform_image [3; 21; 21; 21] (Fin (1 # 2)) [1; 1; 1]))
      [0; 10; 10; 11] \/
  elem (data after) [0; 10; 10; 11] = Fin 0 \/
  elem (data after) [0; 10; 10; 11] = Fin 1.
Proof.
  apply (binary_draw_values (num := reference_numerics)
           short_segment (Fin 1) 0 3
           (uniform_image [3; 21; 21; 21] (Fin (1 # 2)) [1; 1; 1])
           [0; 10; 10; 11]).
  reflexivity.
Defined.

Lemma draw_channel_out_of_range_witness :
  exists e,
    draw_line_segment (num := reference_numerics)
      short_segment (Fin 1) false 3 3
      (uniform_image [3; 21; 21; 21] (Fin 0) [1; 1; 1])
    = (Raise e, uniform_image [3; 21; 21; 21] (Fin 0) [1; 1; 1]).
Proof.
  apply (draw_channel_out_of_range (num := reference_numerics)
           short_segment (Fin 1) false 3 3
           (uniform_image [3; 21; 21; 21] (Fin 0) [1; 1; 1]) 3 [21; 21; 21]).
  - reflexivity.
  - right. lia.
Defined.

Lemma draw_writes_window_witness :
  exists top img',
    amax (slice_tensor short_buffer
            [window_part 10 3 21; window_part 10 3 21; window_part 11 3 21])
    = Ok top /\
    draw_line_segment (num := reference_numerics) short_segment (Fin 1)
      true (-2) 3 (uniform_image [3; 21; 21; 21] (Fin 0) [1; 1; 1])
    = (Ok tt, img') /\
    dx img' = dx (uniform_image [3; 21; 21; 21] (Fin 0) [1; 1; 1]) /\
    shape (data img')
    = shape (data (uniform_image [3; 21; 21; 21] (Fin 0) [1; 1; 1])) /\
    forall c0 a b d,
      in_bounds [3; 21; 21; 21] [c0; a; b; d] = true ->
      elem (data img') [c0; a; b; d]
      = if (c0 =? 1) && (Z.abs (a - 10) <=? 3) && (Z.abs (b - 10) <=? 3)
           && (Z.abs (d - 11) <=? 3)
        then blend true
               (fdiv (elem short_buffer [a - 10 + 3; b - 10 + 3; d - 11 + 3])
                  top)
               (elem (data (uniform_image [3; 21; 21; 21] (Fin 0) [1; 1; 1]))
                  [c0; a; b; d])
        else elem (data (uniform_image [3; 21; 21; 21] (Fin 0) [1; 1; 1]))
               [c0; a; b; d].
Proof.
  apply (draw_writes_window (num := reference_numerics) short_segment (Fin 1)
           true (-2) (uniform_image [3; 21; 21; 21] (Fin 0) [1; 1; 1])
           (midpoint short_segment) 3 short_buffer 10 10 11 3 21 21 21 1).
  - reflexivity.
  - reflexivity.
  - reflexivity.
  - reflexivity.
  - repeat constructor; lia.
  - reflexivity.
Defined.

Lemma draw_writes_window_2d_witness :
  exists top img',
    amax (slice_tensor planar_buffer
            [window_part 10 3 21; window_part 11 3 12])
    = Ok top /\
    draw_line_segment (num := reference_numerics) planar_segment (Fin 1)
      false 0 2 (uniform_image [1; 21; 12] (Fin 0) [1; 1])
    = (Ok tt, img') /\
    dx img' = dx (uniform_image [1; 21; 12] (Fin 0) [1; 1]) /\
    shape (data img')
    = shape (data (uniform_image [1; 21; 12] (Fin 0) [1; 1])) /\
    forall c0 a b,
      in_bounds [1; 21; 12] [c0; a; b] = true ->
      elem (data img') [c0; a; b]
      = if (c0 =? 0) && (Z.abs (a - 10) <=? 3) && (Z.abs (b - 11) <=? 3)
        then blend false
               (fdiv (elem planar_buffer [a - 10 + 3; b - 11 + 3]) top)
               (elem (data (uniform_image [1; 21; 12] (Fin 0) [1; 1]))
                  [c0; a; b])
        else elem (data (uniform_image [1; 21; 12] (Fin 0) [1; 1]))
               [c0; a; b].
Proof.
  apply (draw_writes_window_2d (num := reference_numerics) planar_segment
           (Fin 1) false 0 (uniform_image [1; 21; 12] (Fin 0) [1; 1])
           (midpoint planar_segment) 3 planar_buffer 10 11 1 21 12 0).
  - reflexivity.
  - reflexivity.
  - reflexivity.
  - reflexivity.
  - repeat constructor; lia.
  - reflexivity.
Defined.

Lemma draw_keeps_values_outside_window_witness :
  elem (data (snd (draw_line_segment (num := reference_numerics)
                     short_segment (Fin 1) true 0 3
                     (uniform_image [3; 21; 21; 21] (Fin (1 # 2)) [1; 1; 1]))))
    [0; 10; 14; 11]
  = elem (data (uniform_image [3; 21; 21; 21] (Fin (1 # 2)) [1; 1; 1]))
      [0; 10; 14; 11].
Proof.
  apply (draw_keeps_values_outside_window (num := reference_numerics)
           short_segment (Fin 1) true 0
           (uniform_image [3; 21; 21; 21] (Fin (1 # 2)) [1; 1; 1])
           (midpoint short_segment) 3 short_buffer 10 10 11 3 21 21 21
           0 10 14 11).
  - reflexivity.
  - reflexivity.
  - reflexivity.
  - reflexivity.
  - reflexivity.
  - right. left. lia.
Defined.

Lemma draw_with_zero_mask_witness :
  elem (data (snd (draw_line_segment (num := reference_numerics)
                     (pt [-3; 10; 10], pt [-3; 10; 12]) (Fin 1) false 0 3
                     (uniform_image [3; 21; 21; 21] (Fin (1 # 2)) [1; 1; 1]))))
    [0; 0; 10; 11]
  = if false then Fin 0 else NaN.
Proof.
  apply (draw_with_zero_mask (num := reference_numerics)
           (pt [-3; 10; 10], pt [-3; 10; 12]) (Fin 1) false 0
           (uniform_image [3; 21; 21; 21] (Fin (1 # 2)) [1; 1; 1])
           (midpoint (pt [-3; 10; 10], pt [-3; 10; 12])) 3 short_buffer
           (-3) 10 11 3 21 21 21 0 0 10 11).
  - reflexivity.
  - reflexivity.
  - reflexivity.
  - reflexivity.
  - repeat constructor; lia.
  - reflexivity.
  - vm_compute. reflexivity.
  - reflexivity.
  - lia.
  - lia.
  - lia.
Defined.

Lemma trimmed_mask_normalized_witness :
  let N := tmap (fun v => fdiv v short_peak)
             (slice_tensor short_buffer [(0, 7); (0, 7); (0, 7)]) in
  (forall idx, in_bounds (shape N) idx = true -> elem N idx = NaN) \/
  ((forall idx, in_bounds (shape N) idx = true ->
      exists q, elem N idx = Fin q /\ (0 <= q <= 1)%Q) /\
   exists idx q,
     in_bounds (shape N) idx = true /\ elem N idx = Fin q /\ (q == 1)%Q).
Proof.
  apply (trimmed_mask_normalized 3 short_buffer [0; 0; 0; 0; 0; 0]).
  - change (rbind (amax (slice_tensor short_buffer [(0, 7); (0, 7); (0, 7)]))
              (fun a => Ok (tmap (fun v => fdiv v a)
                              (slice_tensor short_buffer
                                 [(0, 7); (0, 7); (0, 7)])))
            = Ok (tmap (fun v => fdiv v short_peak)
                    (slice_tensor short_buffer [(0, 7); (0, 7); (0, 7)]))).
    replace (amax (slice_tensor short_buffer [(0, 7); (0, 7); (0, 7)]))
      with (Ok short_peak) by (vm_compute; reflexivity).
    reflexivity.
  - vm_compute. reflexivity.
Defined.

Lemma draws_without_threshold_commute_witness :
  same_values
    (run_call (num := reference_numerics)
       (mkCall (pt [10; 10; 11], pt [10; 12; 11]) (Fin 1) false 0 3)
       (run_call (num := reference_numerics)
          (mkCall short_segment (Fin 1) false 0 3)
          (uniform_image [3; 21; 21; 21] (Fin 0) [1; 1; 1])))
    (run_call (num := reference_numerics)
       (mkCall short_segment (Fin 1) false 0 3)
       (run_call (num := reference_numerics)
          (mkCall (pt [10; 10; 11], pt [10; 12; 11]) (Fin 1) false 0 3)
          (uniform_image [3; 21; 21; 21] (Fin 0) [1; 1; 1]))).
Proof.
  apply (draws_without_threshold_commute (num := reference_numerics)
           (mkCall short_segment (Fin 1) false 0 3)
           (mkCall (pt [10; 10; 11], pt [10; 12; 11]) (Fin 1) false 0 3)
           (uniform_image [3; 21; 21; 21] (Fin 0) [1; 1; 1])).
  - reflexivity.
  - reflexivity.
Defined.
